(** * Retrieval core of the multi-user document search service

    A shallow embedding of [document_processor.py], [access_control.py] and
    [conversational_qa.py]: the in-memory vector index with its
    access-filtered ranking, the per-user conversation store, and the
    answer composer that ties them together.

    Conventions of the embedding.
    - numpy [float32] values are IEEE binary32 numbers ([spec_float] at
      precision 24, exponent bound 128); Python [float] is binary64.
    - Python [int] arguments that are used as slice bounds are [Z]; list
      positions are [nat].
    - Python [set] is [gset], the [dict] of conversations is [gmap]; a
      [dict] whose iteration order matters is an association list.
    - a method is a function from the object state to an outcome and the
      object state afterwards; an outcome is a returned value or a raised
      exception.
    - [str] is [string]; [lower] and [upper] act on the ASCII letters, which
      is all the reference tokens of the composer are made of. *)

From Stdlib Require Import ZArith String Ascii List Bool Lia Sorted.
From Stdlib Require Import Floats.SpecFloat DecimalString.
From stdpp Require Import base option list gmap strings fin_maps sorting.

Local Open Scope Z_scope.

(** ** Outcomes and the state-and-exception monad of method calls *)

Inductive exn : Type := ValueError | IndexError.

Inductive outcome (A : Type) : Type :=
  | Returns (a : A)
  | Raises (e : exn).
Arguments Returns {A} a.
Arguments Raises {A} e.

Definition M (S A : Type) : Type := S → outcome A * S.

#[global] Instance M_ret {S} : MRet (M S) := λ A a s, (Returns a, s).

#[global] Instance M_bind {S} : MBind (M S) := λ A B f m s,
  match m s with
  | (Returns a, s') => f a s'
  | (Raises e, s') => (Raises e, s')
  end.

Definition get {S} : M S S := λ s, (Returns s, s).
Definition put {S} (s : S) : M S unit := λ _, (Returns tt, s).
Definition raise {S A} (e : exn) : M S A := λ s, (Raises e, s).

(** A lookup that raises [IndexError] when it has no value. *)
Definition index_or_raise {S A} (o : option A) : M S A :=
  match o with
  | Some a => mret a
  | None => raise IndexError
  end.

(** ** Python slices *)

(** [l[:k]] *)
Definition slice_to {A} (k : Z) (l : list A) : list A :=
  if 0 <=? k then take (Z.to_nat k) l
  else take (length l - Z.to_nat (- k))%nat l.

(** [l[k:]] *)
Definition slice_from {A} (k : Z) (l : list A) : list A :=
  if 0 <=? k then drop (Z.to_nat k) l
  else drop (length l - Z.to_nat (- k))%nat l.

(** ** Floating point *)

Abbreviation float32 := spec_float (only parsing).
Abbreviation float64 := spec_float (only parsing).

Definition f32_add : float32 → float32 → float32 := SFadd 24 128.
Definition f32_mul : float32 → float32 → float32 := SFmul 24 128.
Definition f32_div : float32 → float32 → float32 := SFdiv 24 128.
Definition f32_sqrt : float32 → float32 := SFsqrt 24 128.

Definition is_nan (x : spec_float) : bool :=
  match x with
  | S754_nan => true
  | _ => false
  end.

(** Python's [float(x)] on a numpy [float32]: the same number as a binary64. *)
Definition to_float64 (x : float32) : float64 :=
  match x with
  | S754_finite s m e => binary_normalize 53 1024 (cond_Zopp s (Zpos m)) e s
  | _ => x
  end.

(** Python's [a >= b] on floats: false as soon as one side is NaN. *)
Definition float_ge (a b : float64) : bool := SFleb b a.

(** The order numpy sorts floats by: [<], with NaN after every number. *)
Definition np_lt (a b : spec_float) : bool :=
  SFltb a b || (is_nan b && negb (is_nan a)).

(** ** Vectors and cosine similarity (document_processor.py, lines 141-144)

    [np.dot] and [np.linalg.norm] accumulate in binary32; the order of the
    additions is numpy's business and is taken left to right here. *)

Abbreviation vec := (list float32) (only parsing).

Definition dot (u v : vec) : float32 :=
  fold_left f32_add (zip_with f32_mul u v) (S754_zero false).

Definition norm (u : vec) : float32 := f32_sqrt (dot u u).

(** [np.dot(E, q) / (np.linalg.norm(E, axis=1) * np.linalg.norm(q))] *)
Definition cosine_similarities (E : list vec) (q : vec) : list float32 :=
  zip_with f32_div
    (map (λ row, dot row q) E)
    (map (λ n, f32_mul n (norm q)) (map norm E)).

(** ** [np.argsort]

    The positions of [a] in ascending order of value. numpy's default sort
    runs an insertion sort on short arrays, which leaves equal values in
    their original order; the model is that stable insertion sort. *)

Section InsertionSort.
Context {A : Type} (lt : A → A → bool).

Fixpoint insert_sorted (x : A) (l : list A) : list A :=
  match l with
  | [] => [x]
  | y :: l' => if lt y x then y :: insert_sorted x l' else x :: l
  end.

Definition insertion_sort (l : list A) : list A := foldr insert_sorted [] l.
End InsertionSort.

Definition by_value (x y : nat * spec_float) : bool := np_lt x.2 y.2.

Definition argsort (a : list spec_float) : list nat :=
  (insertion_sort by_value (imap pair a)).*1.

(** ** The embedding model (a collaborator)

    [SentenceTransformer.encode] is a black box from text to a vector. *)

Class Embedder : Type := embed : string → vec.

(** [model.encode(texts)] *)
Definition encode `{Embedder} (texts : list string) : list vec := map embed texts.

(** ** Chunks, search results and the document index *)

Record Chunk : Type := mkChunk {
  text : string;
  page : Z;
  chunk_id : Z;
  document : string
}.

(** [{**chunk, 'similarity': ..., 'chunk_index': ...}] *)
Record SearchResult : Type := mkSearchResult {
  r_text : string;
  r_page : Z;
  r_chunk_id : Z;
  r_document : string;
  r_similarity : float64;
  r_chunk_index : nat
}.

Record DocumentIndex : Type := mkDocumentIndex {
  chunks : list Chunk;
  embeddings : option (list vec);
  document_map : gmap string (list nat)
}.

(** [DocumentIndex.__init__] *)
Definition DocumentIndex_init : DocumentIndex :=
  {| chunks := []; embeddings := None; document_map := ∅ |}.

(** The loop that builds [results] (lines 173-180 and 185-192). *)
Definition build_result (chs : list Chunk) (sims : list float32) (idx : nat)
  : option SearchResult :=
  chunk ← chs !! idx;
  s ← sims !! idx;
  Some {| r_text := text chunk; r_page := page chunk;
          r_chunk_id := chunk_id chunk; r_document := document chunk;
          r_similarity := to_float64 s; r_chunk_index := idx |}.

(** The indices the filtering loop keeps (lines 151-161). *)
Definition filtered_indices_of (allowed : gset string) (chs : list Chunk) : list nat :=
  (filter (λ ic : nat * Chunk, document ic.2 ∈ allowed) (imap pair chs)).*1.

(** [self.embeddings = np.vstack([self.embeddings, chunk_embeddings])]:
    the rows of both arrays must have one length. *)
Definition vstack {S} (E E' : list vec) : M S (list vec) :=
  match E, E' with
  | row :: _, row' :: _ =>
    if (length row =? length row')%nat then mret (E ++ E') else raise ValueError
  | _, _ => mret (E ++ E')
  end.

(** [os.path.basename] on a POSIX path: what follows the last slash. *)
Fixpoint basename_from (acc path : string) : string :=
  match path with
  | EmptyString => acc
  | String c rest =>
    if Ascii.eqb c "/"%char then basename_from EmptyString rest
    else basename_from (acc +:+ String c EmptyString) rest
  end.
Definition basename (path : string) : string := basename_from EmptyString path.

(** PDF text extraction (a collaborator): the paragraphs of a file as
    chunks, each labelled with the base name of the file; the empty list
    when the file cannot be read. *)
Class PdfReader : Type := extract_text_from_pdf : string → list Chunk.

Section Index.
Context `{Embedder}.

(** [create_embeddings] (lines 64-77). *)
Definition create_embeddings (text_chunks : list Chunk) : list vec :=
  encode (map text text_chunks).

(** [DocumentIndex.add_document] (lines 90-116). *)
Definition add_document `{PdfReader} (pdf_path : string) : M DocumentIndex unit :=
  self ← get;
  match extract_text_from_pdf pdf_path with
  | [] => mret tt
  | (_ :: _) as new_chunks =>
    let chunk_embeddings := create_embeddings new_chunks in
    let start_idx := length (chunks self) in
    let all_chunks := chunks self ++ new_chunks in
    put {| chunks := all_chunks; embeddings := embeddings self;
           document_map := document_map self |};;
    E ← match embeddings self with
        | None => mret chunk_embeddings
        | Some E => vstack E chunk_embeddings
        end;
    let doc_name := basename pdf_path in
    let positions := seq start_idx (length new_chunks) in
    put {| chunks := all_chunks; embeddings := Some E;
           document_map :=
             <[doc_name := default [] (document_map self !! doc_name) ++ positions]>
               (document_map self) |}
  end.

(** [allowed_documents is not None and len(allowed_documents) == 0] *)
Definition is_empty_set (allowed_documents : option (gset string)) : bool :=
  match allowed_documents with
  | Some allowed => bool_decide (size allowed = 0%nat)
  | None => false
  end.

(** [DocumentIndex.search] (lines 118-194). *)
Definition search (query : string) (top_k : Z)
    (allowed_documents : option (gset string)) : M DocumentIndex (list SearchResult) :=
  self ← get;
  match chunks self, embeddings self with
  | [], _ | _, None => mret []
  | _ :: _, Some E =>
    if is_empty_set allowed_documents then mret [] else
    (* model.encode([query])[0] *)
    query_embedding ← index_or_raise (encode [query] !! 0%nat);
    (* np.dot needs every row to have the length of the query vector *)
    if negb (forallb (λ row, length row =? length query_embedding)%nat E)
    then raise ValueError else
    let similarities := cosine_similarities E query_embedding in
    match allowed_documents with
    | Some allowed =>
      let filtered_indices := filtered_indices_of allowed (chunks self) in
      filtered_similarities ←
        index_or_raise (mapM (λ idx, similarities !! idx) filtered_indices);
      match filtered_indices with
      | [] => mret []
      | _ :: _ =>
        let order := slice_to top_k (reverse (argsort filtered_similarities)) in
        top_indices ← index_or_raise (mapM (λ o, filtered_indices !! o) order);
        index_or_raise (mapM (build_result (chunks self) similarities) top_indices)
      end
    | None =>
      let top_indices := slice_to top_k (reverse (argsort similarities)) in
      index_or_raise (mapM (build_result (chunks self) similarities) top_indices)
    end
  end.
End Index.

(** ** Access control (access_control.py) *)

Definition USER_DOCUMENT_ACCESS : gmap string (list string) :=
  list_to_map [
    ("alice@email.com", ["company_a_earnings.pdf"]);
    ("bob@email.com", ["company_b_earnings.pdf"; "company_c_earnings.pdf"]);
    ("charlie@email.com", ["company_d_earnings.pdf"; "company_e_earnings.pdf"]);
    ("aakash@email.com", ["company_a_earnings.pdf"]);
    ("test1@email.com", ["company_b_earnings.pdf"; "company_c_earnings.pdf"]);
    ("test2@email.com", ["company_a_earnings.pdf"; "company_b_earnings.pdf"])
  ].

Definition get_user_documents (user_email : string) : list string :=
  default [] (USER_DOCUMENT_ACCESS !! user_email).

Definition can_access_document (user_email document_name : string) : bool :=
  bool_decide (document_name ∈ get_user_documents user_email).

Definition get_allowed_documents_set (user_email : string) : gset string :=
  list_to_set (get_user_documents user_email).

(** ** Strings *)

(** [sub in s] *)
Fixpoint contains (sub s : string) : bool :=
  String.prefix sub s ||
  match s with
  | EmptyString => false
  | String _ rest => contains sub rest
  end.

(** [s.replace(old, new)] for a non-empty [old]: [skip] characters of an
    occurrence already replaced are still to be passed over. *)
Fixpoint replace_from (skip : nat) (old new s : string) : string :=
  match s with
  | EmptyString => EmptyString
  | String c rest =>
    match skip with
    | S n => replace_from n old new rest
    | O =>
      if String.prefix old s
      then new +:+ replace_from (String.length old - 1) old new rest
      else String c (replace_from O old new rest)
    end
  end.
Definition replace (old new s : string) : string := replace_from O old new s.

Definition lower_char (c : ascii) : ascii :=
  let n := nat_of_ascii c in
  if (65 <=? n)%nat && (n <=? 90)%nat then ascii_of_nat (n + 32) else c.

Definition upper_char (c : ascii) : ascii :=
  let n := nat_of_ascii c in
  if (97 <=? n)%nat && (n <=? 122)%nat then ascii_of_nat (n - 32) else c.

Fixpoint map_string (f : ascii → ascii) (s : string) : string :=
  match s with
  | EmptyString => EmptyString
  | String c rest => String (f c) (map_string f rest)
  end.

Definition lower : string → string := map_string lower_char.
Definition upper : string → string := map_string upper_char.

(** [sep.join(parts)] *)
Definition join (sep : string) (parts : list string) : string := String.concat sep parts.

(** [s[:n]] for a count [n] *)
Definition str_take (n : nat) (s : string) : string := String.substring 0 n s.

Definition newline : string := String "010"%char EmptyString.

(** [f"{x:.2f}"]: the number rounded to hundredths, ties to even. *)
Definition round_half_even (n d : Z) : Z :=
  let q := (n / d)%Z in
  match (2 * (n mod d) ?= d)%Z with
  | Lt => q
  | Gt => (q + 1)%Z
  | Eq => if Z.even q then q else (q + 1)%Z
  end.

Definition hundredths (m : positive) (e : Z) : Z :=
  if (0 <=? e)%Z then (Zpos m * 100 * 2 ^ e)%Z
  else round_half_even (Zpos m * 100) (2 ^ (- e)).

Definition decimal (n : Z) : string := NilZero.string_of_uint (N.to_uint (Z.to_N n)).

Definition format_2f (x : float64) : string :=
  let sign (s : bool) := if s then "-" else "" in
  match x with
  | S754_nan => "nan"
  | S754_infinity s => sign s +:+ "inf"
  | S754_zero s => sign s +:+ "0.00"
  | S754_finite s m e =>
    let h := hundredths m e in
    let cents := (h mod 100)%Z in
    sign s +:+ decimal (h / 100) +:+ "." +:+
    (if (cents <? 10)%Z then "0" else "") +:+ decimal cents
  end.

(** ** Conversation store (conversational_qa.py, lines 10-84) *)

Record Entry : Type := mkEntry {
  e_query : string;
  e_answer : string;
  e_context : string
}.

Record ConversationManager : Type := mkConversationManager {
  conversations : gmap string (list Entry)
}.

Definition ConversationManager_init : ConversationManager :=
  {| conversations := ∅ |}.

Definition get_conversation_history (user_email : string)
    (self : ConversationManager) : list Entry :=
  default [] (conversations self !! user_email).

Definition add_to_conversation (user_email query answer context : string)
    (self : ConversationManager) : ConversationManager :=
  let history := default [] (conversations self !! user_email) in
  {| conversations :=
       <[user_email := history ++ [mkEntry query answer context]]> (conversations self) |}.

Definition clear_conversation (user_email : string)
    (self : ConversationManager) : ConversationManager :=
  match conversations self !! user_email with
  | Some _ => {| conversations := <[user_email := []]> (conversations self) |}
  | None => self
  end.

Definition build_context_string (user_email : string) (max_entries : Z)
    (self : ConversationManager) : string :=
  match get_conversation_history user_email self with
  | [] => ""
  | (_ :: _) as history =>
    let recent := slice_from (- max_entries) history in
    let context_parts :=
      recent ≫= λ entry,
        ["Previous question: " +:+ e_query entry;
         "Previous answer: " +:+ str_take 200 (e_answer entry) +:+ "..."] in
    join newline context_parts
  end.

(** ** Answer composer (conversational_qa.py, lines 87-250) *)

Record Source : Type := mkSource {
  s_document : string;
  s_page : Z;
  s_similarity : string
}.

Record Response : Type := mkResponse {
  answer : string;
  sources : list Source;
  context_used : bool
}.

(** What the composer asks of its [document_index]: a [search] method.
    [DocumentIndex] is the implementation of the repository. *)
Class Retriever (I : Type) : Type :=
  index_search : string → Z → option (gset string) → M I (list SearchResult).

#[global] Instance DocumentIndex_retriever `{Embedder} : Retriever DocumentIndex :=
  search.

Record ConversationalQA (I : Type) : Type := mkConversationalQA {
  document_index : I;
  conversation_manager : ConversationManager
}.
Arguments mkConversationalQA {I} _ _.
Arguments document_index {I} _.
Arguments conversation_manager {I} _.

(** [ConversationalQA.__init__] *)
Definition ConversationalQA_init {I} (ix : I) : ConversationalQA I :=
  {| document_index := ix; conversation_manager := ConversationManager_init |}.

(** The literal [company_mapping] (lines 113-124), in insertion order. *)
Definition company_mapping_literal : list (string * string) :=
  [ ("company_a", "company_a_earnings.pdf");
    ("company_b", "company_b_earnings.pdf");
    ("company_c", "company_c_earnings.pdf");
    ("company_d", "company_d_earnings.pdf");
    ("company_e", "company_e_earnings.pdf");
    ("company a", "company_a_earnings.pdf");
    ("company b", "company_b_earnings.pdf");
    ("company c", "company_c_earnings.pdf");
    ("company d", "company_d_earnings.pdf");
    ("company e", "company_e_earnings.pdf") ].

Definition document_names : list string :=
  [ "company_a_earnings.pdf"; "company_b_earnings.pdf"; "company_c_earnings.pdf";
    "company_d_earnings.pdf"; "company_e_earnings.pdf" ].

(** [d[k] = v] on an insertion-ordered dict *)
Fixpoint dict_set (k v : string) (d : list (string * string)) : list (string * string) :=
  match d with
  | [] => [(k, v)]
  | (k', v') :: d' => if String.eqb k k' then (k, v) :: d' else (k', v') :: dict_set k v d'
  end.

(** The loop over the document file names (lines 127-131). *)
Definition company_mapping (query_lower : string) : list (string * string) :=
  fold_left
    (λ mapping doc_name,
       let doc_base := replace ".pdf" "" (replace "_earnings.pdf" "" doc_name) in
       if contains doc_base query_lower && negb (bool_decide (doc_name ∈ mapping.*2))
       then dict_set doc_base doc_name mapping
       else mapping)
    document_names company_mapping_literal.

(** Lines 134-137. *)
Definition mentioned_companies (query_lower : string) : list (string * string) :=
  filter (λ entry : string * string, contains entry.1 query_lower = true)
         (company_mapping query_lower).

(** Lines 141-144. *)
Definition unauthorized_mentions (allowed_docs : gset string) (query_lower : string)
  : list string :=
  (λ entry : string * string, upper entry.1) <$>
    filter (λ entry : string * string, entry.2 ∉ allowed_docs)
           (mentioned_companies query_lower).

(** The refusal of line 148. [', '.join(allowed_docs)] runs over the set in
    its iteration order, which Python leaves open; [elements] is one such
    order. *)
Definition refusal_answer (mentions : list string) (allowed_docs : gset string) : string :=
  "I don't have access to information about " +:+ join ", " mentions +:+
  ". I can only search within the documents you have access to: " +:+
  join ", " (elements allowed_docs) +:+
  ". Please ask questions about the companies I have access to.".

(** [MIN_SIMILARITY_THRESHOLD = 0.40]: the binary64 nearest to 2/5. *)
Definition MIN_SIMILARITY_THRESHOLD : float64 :=
  S754_finite false 7205759403792794 (-54).

(** Line 226. *)
Definition no_results_answer : string :=
  "I couldn't find relevant information in the documents you have access to. Please try rephrasing your question.".

(** Line 223. *)
Definition below_threshold_answer (allowed_docs : gset string) : string :=
  "I couldn't find highly relevant information in the documents you have access to (" +:+
  join ", " (elements allowed_docs) +:+
  "). The search results didn't meet the relevance threshold (minimum similarity: " +:+
  format_2f MIN_SIMILARITY_THRESHOLD +:+
  "). Please try rephrasing your question or asking about topics that might be in your accessible documents.".

(** The double check of access control (lines 187-194). The warning that
    is printed for a dropped result goes to standard output and is not
    part of any state modelled here. *)
Definition filtered_results_of (allowed_docs : gset string)
    (search_results : list SearchResult) : list SearchResult :=
  filter (λ result, r_document result ∈ allowed_docs) search_results.

(** The relevance threshold (lines 197-201). *)
Definition high_similarity_results_of (filtered_results : list SearchResult)
  : list SearchResult :=
  filter (λ result, float_ge (r_similarity result) MIN_SIMILARITY_THRESHOLD = true)
         filtered_results.

Definition source_of (result : SearchResult) : Source :=
  {| s_document := r_document result;
     s_page := r_page result;
     s_similarity := format_2f (r_similarity result) |}.

(** Answer and sources from the search results (lines 184-227). *)
Definition build_answer (allowed_docs : gset string)
    (search_results : list SearchResult) : string * list Source :=
  match search_results with
  | [] => (no_results_answer, [])
  | _ :: _ =>
    let filtered_results := filtered_results_of allowed_docs search_results in
    match high_similarity_results_of filtered_results with
    | [] => (below_threshold_answer allowed_docs, [])
    | (_ :: _) as high_similarity_results =>
      let used := take 3 high_similarity_results in
      let answer := join (newline +:+ newline) (r_text <$> used) in
      let answer :=
        if (1000 <? String.length answer)%nat
        then str_take 1000 answer +:+ "..." else answer in
      (answer, source_of <$> used)
    end
  end.

(** The query with the conversation context appended (line 160). *)
Definition enhance (query context_string : string) : string :=
  query +:+ newline +:+ newline +:+ "Context from previous conversation:" +:+
  newline +:+ context_string.

Section Composer.
Context {I : Type} `{Retriever I}.

(** [self.document_index.search(query=..., top_k=3, allowed_documents=...)] *)
Definition call_search (query : string) (allowed_docs : gset string)
  : M (ConversationalQA I) (list SearchResult) := λ self,
  let '(out, ix) := index_search query 3 (Some allowed_docs) (document_index self) in
  (out, {| document_index := ix;
           conversation_manager := conversation_manager self |}).

(** [self.conversation_manager.add_to_conversation(...)] *)
Definition call_add_to_conversation (user_email query answer context : string)
  : M (ConversationalQA I) unit := λ self,
  (Returns tt,
   {| document_index := document_index self;
      conversation_manager :=
        add_to_conversation user_email query answer context (conversation_manager self) |}).

(** Context fusion, retrieval and the retry without context
    (lines 153-177): the results and the final [context_used]. *)
Definition retrieve_with_fallback (user_email query : string) (use_context : bool)
    (allowed_docs : gset string) : M (ConversationalQA I) (list SearchResult * bool) :=
  self ← get;
  let '(enhanced_query, context_used) :=
    if use_context then
      let context_string :=
        build_context_string user_email 3 (conversation_manager self) in
      if bool_decide (context_string ≠ "")
      then (enhance query context_string, true)
      else (query, false)
    else (query, false) in
  search_results ← call_search enhanced_query allowed_docs;
  if bool_decide (search_results = []) && context_used
  then (retry ← call_search query allowed_docs; mret (retry, false))
  else mret (search_results, context_used).

(** [ConversationalQA.answer_query] (lines 96-241). *)
Definition answer_query (user_email query : string) (use_context : bool)
  : M (ConversationalQA I) Response :=
  let allowed_docs := get_allowed_documents_set user_email in
  let query_lower := lower query in
  match unauthorized_mentions allowed_docs query_lower with
  | (_ :: _) as mentions =>
    mret {| answer := refusal_answer mentions allowed_docs;
            sources := [];
            context_used := false |}
  | [] =>
    '(search_results, context_used) ←
      retrieve_with_fallback user_email query use_context allowed_docs;
    let '(answer, sources) := build_answer allowed_docs search_results in
    call_add_to_conversation user_email query answer
      (join "; " (s_document <$> sources));;
    mret {| answer := answer; sources := sources; context_used := context_used |}
  end.

(** [ConversationalQA.clear_user_conversation] *)
Definition clear_user_conversation (user_email : string)
  : M (ConversationalQA I) unit := λ self,
  (Returns tt,
   {| document_index := document_index self;
      conversation_manager := clear_conversation user_email (conversation_manager self) |}).
End Composer.

(** ** Ingestion (document_processor.py, lines 26-61 and 196-211)

    Strings are sequences of characters below 256. *)

(** [c.isspace()] on the characters below 256 *)
Definition is_space_char (c : ascii) : bool :=
  let n := nat_of_ascii c in
  ((9 <=? n)%nat && (n <=? 13)%nat) || ((28 <=? n)%nat && (n <=? 32)%nat) ||
  (n =? 133)%nat || (n =? 160)%nat.

Fixpoint lstrip (s : string) : string :=
  match s with
  | EmptyString => EmptyString
  | String c rest => if is_space_char c then lstrip rest else s
  end.

(** [s.strip()] *)
Definition strip (s : string) : string :=
  String.rev (lstrip (String.rev (lstrip s))).

(** [s.split(sep)] for a non-empty [sep]: [cur] is the piece being read,
    [skip] the characters of a separator still to be passed over. *)
Fixpoint split_from (skip : nat) (sep cur s : string) : list string :=
  match s with
  | EmptyString => [cur]
  | String c rest =>
    match skip with
    | S n => split_from n sep cur rest
    | O =>
      if String.prefix sep s
      then cur :: split_from (String.length sep - 1) sep EmptyString rest
      else split_from O sep (cur +:+ String c EmptyString) rest
    end
  end.
Definition split (sep s : string) : list string := split_from O sep EmptyString s.

(** [s.endswith(suffix)] *)
Definition endswith (suffix s : string) : bool :=
  String.prefix (String.rev suffix) (String.rev s).

(** [os.path.join(a, b)] on POSIX paths *)
Definition path_join (a b : string) : string :=
  if String.prefix "/" b then b
  else if String.eqb a "" || endswith "/" a then a +:+ b
  else a +:+ "/" +:+ b.

(** What PyPDF2 reads from a file (a collaborator): nothing when the file
    cannot be opened or parsed, else its pages in order, each with its
    text or nothing when [extract_text] raises on it. *)
Class PdfPages : Type := read_pages : string → option (list (option string)).

(** The paragraphs of a page that become chunks (lines 47-50). *)
Definition paragraphs_of (text : string) : list string :=
  filter (λ para, (50 < String.length para)%nat)
         (strip <$> split (newline +:+ newline) text).

(** The loop over the pages (lines 42-57). An exception ends the loop and
    what was collected before it is kept (lines 58-61). *)
Fixpoint chunks_of_pages (doc : string) (page_num chunk_id : Z)
    (pages : list (option string)) : list Chunk :=
  match pages with
  | [] => []
  | None :: _ => []
  | Some page_text :: rest =>
    let paragraphs :=
      if bool_decide (strip page_text ≠ "") then paragraphs_of page_text else [] in
    imap (λ i para, mkChunk para page_num (chunk_id + Z.of_nat i) doc) paragraphs
    ++ chunks_of_pages doc (page_num + 1)
         (chunk_id + Z.of_nat (length paragraphs)) rest
  end.

(** [extract_text_from_pdf] (lines 26-61), on what PyPDF2 reads. *)
Definition extract_text_from_pdf_pages `{PdfPages} (pdf_path : string) : list Chunk :=
  match read_pages pdf_path with
  | None => []
  | Some pages => chunks_of_pages (basename pdf_path) 1 0 pages
  end.

#[global] Instance PdfPages_reader `{PdfPages} : PdfReader :=
  extract_text_from_pdf_pages.

(** The directory listing (a collaborator): [os.listdir] of a path that
    exists, nothing for a path that does not. *)
Class FileSystem : Type := listdir : string → option (list string).

(** [for x in l: f(x)] *)
Fixpoint for_each {S A} (f : A → M S unit) (l : list A) : M S unit :=
  match l with
  | [] => mret tt
  | x :: l' => f x;; for_each f l'
  end.

(** [DocumentIndex.load_documents] (lines 196-211). *)
Definition load_documents `{Embedder} `{PdfReader} `{FileSystem}
    (documents_dir : string) : M DocumentIndex unit :=
  match listdir documents_dir with
  | None => mret tt
  | Some names =>
    let pdf_files := filter (λ f, endswith ".pdf" f = true) names in
    for_each (λ pdf_file, add_document (path_join documents_dir pdf_file)) pdf_files
  end.

(** [initialize_system] (app.py, lines 19-43): the QA system the
    application starts with, or nothing when there is no documents
    directory. *)
Definition initialize_system `{Embedder} `{PdfReader} `{FileSystem}
  : outcome (option (ConversationalQA DocumentIndex)) :=
  match listdir "documents" with
  | None => Returns None
  | Some _ =>
    match load_documents "documents" DocumentIndex_init with
    | (Returns _, document_index) => Returns (Some (ConversationalQA_init document_index))
    | (Raises e, _) => Raises e
    end
  end.

(** * Vocabulary of the properties *)

(** ** The order of [np_lt] and of [argsort] *)

(** A key whose lexicographic order is the order of [np_lt]. *)
Definition float_key (x : spec_float) : Z * Z * Z :=
  match x with
  | S754_nan => (3, 0, 0)
  | S754_infinity false => (2, 0, 0)
  | S754_infinity true => (-2, 0, 0)
  | S754_zero _ => (0, 0, 0)
  | S754_finite false m e => (1, e, Zpos m)
  | S754_finite true m e => (-1, - e, - Zpos m)
  end.

Definition key_lt (a b : Z * Z * Z) : Prop :=
  a.1.1 < b.1.1 ∨
  (a.1.1 = b.1.1 ∧ (a.1.2 < b.1.2 ∨ (a.1.2 = b.1.2 ∧ a.2 < b.2))).


Definition sorted_pairs (a : list spec_float) : list (nat * spec_float) :=
  insertion_sort by_value (imap pair a).

(** ** The index: invariant, candidates, ranking *)

(** One embedding row per chunk, every row of dimension [d]. *)
Definition index_wf (d : nat) (ix : DocumentIndex) : Prop :=
  match embeddings ix with
  | None => chunks ix = []
  | Some E => length E = length (chunks ix) ∧ Forall (λ row, length row = d) E
  end.

(** The indices [search] ranks: those the filter lets through, or all. *)
Definition candidate_pool (allowed_documents : option (gset string))
    (chs : list Chunk) : list nat :=
  match allowed_documents with
  | Some allowed => filtered_indices_of allowed chs
  | None => seq 0 (length chs)
  end.

(** [rs] is read off [pool] ranked by similarity and cut at [k]. *)
Definition ranked_from (chs : list Chunk) (sims : list float32) (pool : list nat)
    (k : Z) (rs : list SearchResult) : Prop :=
  ∃ fsims top_indices,
    Forall2 (λ idx s, sims !! idx = Some s) pool fsims ∧
    Forall2 (λ o idx, pool !! o = Some idx)
            (slice_to k (reverse (argsort fsims))) top_indices ∧
    Forall2 (λ idx r, build_result chs sims idx = Some r) top_indices rs.

(** The similarity of every chunk to the query, as [search] computes it. *)
Definition similarities_of `{Embedder} (ix : DocumentIndex) (query : string) : list float32 :=
  match embeddings ix with
  | Some E => cosine_similarities E (embed query)
  | None => []
  end.



(** ** The claims as they are written, where they fail *)




(** ** A small index and stand-in retrievers to run the model on *)

Definition f32_one : float32 := S754_finite false 8388608 (-23).

(** A two-dimensional stand-in for the embedding model. *)
Definition demo_embed (s : string) : vec :=
  if contains "alpha" s then [f32_one; S754_zero false]
  else if contains "beta" s then [S754_zero false; f32_one]
  else if contains "gamma" s then [f32_one; f32_one]
  else [S754_zero false; S754_zero false].

#[local] Instance demo_embedder : Embedder := demo_embed.

Definition demo_chunks : list Chunk :=
  [ mkChunk "alpha one" 1 0 "company_a_earnings.pdf";
    mkChunk "beta" 1 0 "company_b_earnings.pdf";
    mkChunk "alpha two" 1 1 "company_a_earnings.pdf";
    mkChunk "void" 2 2 "company_a_earnings.pdf" ].

Definition demo_index : DocumentIndex :=
  {| chunks := demo_chunks;
     embeddings := Some (create_embeddings demo_chunks);
     document_map :=
       {[ "company_a_earnings.pdf" := [0; 2; 3]%nat;
          "company_b_earnings.pdf" := [1%nat] ]} |}.


Definition demo_result : SearchResult :=
  {| r_text := "alpha one"; r_page := 1; r_chunk_id := 0;
     r_document := "company_a_earnings.pdf";
     r_similarity := to_float64 f32_one; r_chunk_index := 0 |}.

(** A stand-in index that finds nothing for a query with context appended. *)
Definition context_shy_retriever : Retriever unit := λ query _ _ s,
  if contains "Context from previous conversation" query
  then (Returns [], s) else (Returns [demo_result], s).


Definition demo_qa : ConversationalQA DocumentIndex := ConversationalQA_init demo_index.

(** ** The ingestion invariants and a small file system *)

(** The document map lists, under each label, the positions of the chunks
    of that document, each once. *)
Definition document_map_consistent (ix : DocumentIndex) : Prop :=
  ∀ label,
    NoDup (default [] (document_map ix !! label)) ∧
    ∀ i, i ∈ default [] (document_map ix !! label) ↔
         ∃ c, chunks ix !! i = Some c ∧ document c = label.

(** A chunk carries the base name of the file it was read from. *)
Definition labels_by_basename `{PdfReader} : Prop :=
  ∀ pdf_path c, c ∈ extract_text_from_pdf pdf_path → document c = basename pdf_path.

(** One call of a method of the running QA system. *)
Inductive qa_step `{Embedder} :
    ConversationalQA DocumentIndex → ConversationalQA DocumentIndex → Prop :=
  | qa_step_answer user query use_context st :
      qa_step st (answer_query user query use_context st).2
  | qa_step_clear user st :
      qa_step st (clear_user_conversation user st).2.

(** The states the application can be in after start-up. *)
Definition qa_reachable `{Embedder} `{PdfReader} `{FileSystem}
    (st : ConversationalQA DocumentIndex) : Prop :=
  ∃ st0, initialize_system = Returns (Some st0) ∧ rtc qa_step st0 st.

Definition sixty : string :=
  "The quarterly revenue of the company grew by twelve percent.".

Definition demo_pages : PdfPages := λ pdf_path,
  if String.eqb pdf_path "documents/company_a_earnings.pdf"
  then Some [ Some (sixty +:+ newline +:+ newline +:+ "short" +:+ newline +:+ newline
                    +:+ "  gamma " +:+ sixty);
              Some "   ";
              Some ("alpha " +:+ sixty);
              None;
              Some ("beta " +:+ sixty) ]
  else if String.eqb pdf_path "documents/company_b_earnings.pdf"
  then Some [ Some ("beta " +:+ sixty) ]
  else None.

Definition demo_files : FileSystem := λ dir,
  if String.eqb dir "documents"
  then Some ["company_a_earnings.pdf"; "notes.txt"; "company_b_earnings.pdf"]
  else None.

(** An embedding model that is not dimension-consistent. *)
Definition ragged_embed : Embedder := λ s,
  if contains "beta" s then [f32_one] else [f32_one; f32_one].

(** * Properties *)

(** ** The order numpy sorts by *)

Lemma np_lt_key a b : np_lt a b = true ↔ key_lt (float_key a) (float_key b).
Proof.
  unfold np_lt, SFltb, key_lt.
  destruct a as [sa|sa| |sa ma ea], b as [sb|sb| |sb mb eb];
    try destruct sa; try destruct sb; cbn;
    try (split; [discriminate | lia]); try (split; [lia | reflexivity]).
  all: change (Pos.compare_cont Eq ?x ?y) with (x ?= y)%positive.
  all: destruct (Z.compare_spec ea eb); cbn;
    try destruct (Pos.compare_spec ma mb); cbn;
    split; try discriminate; try reflexivity; try lia.
Qed.

Lemma np_lt_false_key a b :
  np_lt a b = false ↔ ¬ key_lt (float_key a) (float_key b).
Proof. rewrite <- np_lt_key. destruct (np_lt a b); split; congruence. Qed.

Lemma np_lt_irrefl a : np_lt a a = false.
Proof. apply np_lt_false_key. unfold key_lt. lia. Qed.





(** ** Insertion sort *)

Section InsertionSortFacts.
Context {A : Type} (lt : A → A → bool).
(** [R] is the order the output is to be in; [earlier] holds between an
    element and those that follow it in the input. *)
Context (R earlier : relation A).
Hypothesis lt_R : ∀ x y, lt y x = true → R y x.
Hypothesis not_lt_R : ∀ x y, lt y x = false → earlier x y → R x y.
Hypothesis R_trans : ∀ x y z, R x y → R y z → R x z.

Lemma insert_sorted_perm x l : insert_sorted lt x l ≡ₚ x :: l.
Proof.
  induction l as [|y l IH]; cbn; [done|].
  destruct (lt y x); [|done].
  rewrite IH. apply Permutation_swap.
Qed.

Lemma insertion_sort_cons x l :
  insertion_sort lt (x :: l) = insert_sorted lt x (insertion_sort lt l).
Proof. reflexivity. Qed.

Lemma insertion_sort_perm l : insertion_sort lt l ≡ₚ l.
Proof.
  induction l as [|x l IH]; [done|].
  rewrite insertion_sort_cons, insert_sorted_perm. by f_equiv.
Qed.


End InsertionSortFacts.

(** ** Sorted lists, by position *)

Lemma StronglySorted_lookup_lt {A} (R : relation A) l i j x y :
  StronglySorted R l → l !! i = Some x → l !! j = Some y → (i < j)%nat → R x y.
Proof.
  intros Hs. revert i j. induction Hs as [|a l Hs IH Ha]; intros i j Hi Hj Hij.
  - by rewrite lookup_nil in Hi.
  - destruct j as [|j]; [lia|]. destruct i as [|i]; cbn in *.
    + injection Hi as <-. rewrite Forall_forall in Ha. apply Ha.
      eapply list_elem_of_lookup_2, Hj.
    + eapply IH; eauto with lia.
Qed.


Lemma StronglySorted_imap {A B} (R : relation B) (f : nat → A → B) l :
  (∀ i j x y, (i < j)%nat → R (f i x) (f j y)) → StronglySorted R (imap f l).
Proof.
  revert f. induction l as [|a l IH]; intros f Hf; cbn; [constructor|].
  constructor.
  - apply IH. intros i j x y Hij. apply Hf. lia.
  - apply Forall_forall. intros b (i & y & -> & _)%elem_of_lookup_imap. apply Hf. lia.
Qed.

(** ** [argsort] *)



Lemma sorted_pairs_perm a : sorted_pairs a ≡ₚ imap pair a.
Proof. apply insertion_sort_perm. Qed.


Lemma argsort_perm a : argsort a ≡ₚ seq 0 (length a).
Proof.
  unfold argsort. fold (sorted_pairs a). rewrite sorted_pairs_perm, fmap_imap.
  rewrite (imap_ext _ (λ j _, id j)) by done. rewrite imap_seq_0, list_fmap_id. done.
Qed.

Lemma length_argsort a : length (argsort a) = length a.
Proof. by rewrite argsort_perm, length_seq. Qed.

Lemma elem_of_argsort a o : o ∈ argsort a ↔ (o < length a)%nat.
Proof. rewrite argsort_perm, elem_of_seq. lia. Qed.

Lemma NoDup_argsort a : NoDup (argsort a).
Proof. rewrite argsort_perm. apply NoDup_seq. Qed.


(** ** Slices *)

Lemma slice_to_take {A} (k : Z) (l : list A) :
  slice_to k l =
  take (if 0 <=? k then Z.to_nat k else (length l - Z.to_nat (- k))%nat) l.
Proof. unfold slice_to. by destruct (0 <=? k). Qed.


(** ** The index and its invariant *)

Lemma length_cosine_similarities E q : length (cosine_similarities E q) = length E.
Proof.
  unfold cosine_similarities.
  rewrite length_zip_with, !length_map. lia.
Qed.

Lemma elem_of_filtered_indices allowed chs idx :
  idx ∈ filtered_indices_of allowed chs ↔
  ∃ c, chs !! idx = Some c ∧ document c ∈ allowed.
Proof.
  unfold filtered_indices_of. rewrite list_elem_of_fmap. split.
  - intros ([i c] & -> & [Hd Hin]%list_elem_of_filter).
    apply elem_of_lookup_imap in Hin as (j & y & [= -> ->] & Hj). eauto.
  - intros (c & Hc & Hd). exists (idx, c). split; [done|].
    apply list_elem_of_filter. split; [done|]. apply elem_of_lookup_imap. eauto.
Qed.

Lemma StronglySorted_filter {A} (R : relation A) (P : A → Prop)
    `{∀ x, Decision (P x)} l :
  StronglySorted R l → StronglySorted R (filter P l).
Proof.
  induction 1 as [|a l Hs IH Ha]; [constructor|].
  rewrite filter_cons. destruct (decide (P a)); [|done].
  constructor; [done|]. rewrite Forall_forall in Ha |- *.
  intros x [_ Hx]%list_elem_of_filter. by apply Ha.
Qed.

Lemma filtered_indices_sorted allowed chs :
  StronglySorted Nat.lt (filtered_indices_of allowed chs).
Proof.
  unfold filtered_indices_of.
  apply (StronglySorted_fmap fst (λ x y : nat * Chunk, (x.1 < y.1)%nat)); [done|].
  apply StronglySorted_filter, StronglySorted_imap. intros i j x y Hij. done.
Qed.

Lemma candidate_pool_sorted F chs : StronglySorted Nat.lt (candidate_pool F chs).
Proof.
  destruct F as [allowed|]; cbn; [apply filtered_indices_sorted|].
  rewrite <- (list_fmap_id (seq 0 (length chs))), <- imap_seq_0.
  apply StronglySorted_imap. intros i j x y Hij. done.
Qed.

Lemma candidate_pool_bound F chs idx :
  idx ∈ candidate_pool F chs → (idx < length chs)%nat.
Proof.
  destruct F as [allowed|]; cbn.
  - intros (c & Hc & _)%elem_of_filtered_indices. by eapply lookup_lt_Some.
  - rewrite elem_of_seq. lia.
Qed.

Lemma build_result_Some chs sims idx r :
  build_result chs sims idx = Some r ↔
  ∃ c s, chs !! idx = Some c ∧ sims !! idx = Some s ∧
    r = {| r_text := text c; r_page := page c; r_chunk_id := chunk_id c;
           r_document := document c; r_similarity := to_float64 s;
           r_chunk_index := idx |}.
Proof.
  unfold build_result. split.
  - destruct (chs !! idx) as [c|]; [|done]. destruct (sims !! idx) as [s|]; [|done].
    cbn. intros [= <-]. eauto.
  - intros (c & s & -> & -> & ->). done.
Qed.

#[local] Arguments filtered_indices_of : simpl never.
#[local] Arguments cosine_similarities : simpl never.
#[local] Arguments argsort : simpl never.
#[local] Arguments slice_to : simpl never.
#[local] Arguments build_result : simpl never.
#[local] Arguments create_embeddings : simpl never.
#[local] Arguments candidate_pool : simpl never.
#[local] Arguments ranked_from : simpl never.

Ltac run_monad :=
  unfold mbind, M_bind, mret, M_ret, get, put, raise; cbn.

Lemma slice_to_nil {A} (k : Z) : slice_to k (@nil A) = [].
Proof. rewrite slice_to_take. apply take_nil. Qed.

Lemma elem_of_slice_to {A} (k : Z) (l : list A) x : x ∈ slice_to k l → x ∈ l.
Proof. rewrite slice_to_take. apply subseteq_take. Qed.

Lemma mapM_lookup_is_Some {A} (l : list A) (idxs : list nat) :
  Forall (λ i, (i < length l)%nat) idxs → is_Some (mapM (λ i, l !! i) idxs).
Proof.
  intros Hall. apply mapM_is_Some. eapply Forall_impl; [exact Hall|].
  intros i Hi. by apply lookup_lt_is_Some.
Qed.

Lemma Forall2_lookup_seq {A} (l : list A) :
  Forall2 (λ idx s, l !! idx = Some s) (seq 0 (length l)) l.
Proof.
  apply Forall2_same_length_lookup. split; [by rewrite length_seq|].
  intros i idx s [-> _]%lookup_seq Hs. done.
Qed.

Section SearchFacts.
Context `{Embedder} (d : nat).
Hypothesis embed_dim : ∀ s, length (embed s) = d.

Lemma ranked_from_empty_pool chs sims k : ranked_from chs sims [] k [].
Proof.
  exists [], []. split_and!; [constructor| |constructor].
  change (reverse (argsort [])) with (@nil nat). rewrite slice_to_nil. constructor.
Qed.

(** [search] never changes the index, whatever it returns or raises. *)
Lemma search_frame query top_k allowed_documents ix :
  (search query top_k allowed_documents ix).2 = ix.
Proof.
  unfold search, index_or_raise. run_monad.
  repeat (case_match; simplify_eq; run_monad; try done).
Qed.

(** On a well-formed index [search] returns, and what it returns is the
    candidate pool ranked and cut. *)
Lemma search_spec query top_k allowed_documents ix :
  index_wf d ix →
  ∃ rs, search query top_k allowed_documents ix = (Returns rs, ix) ∧
    ranked_from (chunks ix) (similarities_of ix query)
      (candidate_pool allowed_documents (chunks ix)) top_k rs.
Proof.
  intros Hwf. unfold index_wf in Hwf. unfold search, similarities_of. run_monad.
  destruct (chunks ix) as [|c cs] eqn:Hchunks.
  { exists []. split; [done|].
    destruct allowed_documents; apply ranked_from_empty_pool. }
  destruct (embeddings ix) as [E|] eqn:HE; [|done].
  destruct Hwf as [Hlen Hdim].
  destruct (is_empty_set allowed_documents) eqn:Hempty.
  { exists []. split; [done|].
    destruct allowed_documents as [allowed|]; [|done]. cbn in Hempty.
    apply bool_decide_eq_true, size_empty_inv, leibniz_equiv in Hempty as ->.
    assert (candidate_pool (Some ∅) (c :: cs) = []) as ->.
    { apply elem_of_nil_inv. intros idx (c' & _ & Hin)%elem_of_filtered_indices.
      set_solver. }
    apply ranked_from_empty_pool. }
  run_monad.
  assert (forallb (λ row, (length row =? length (embed query))%nat) E = true) as ->.
  { apply Is_true_true, forallb_True. eapply Forall_impl; [exact Hdim|].
    intros row Hrow. cbn in Hrow. apply Is_true_true, Nat.eqb_eq.
    by rewrite embed_dim. }
  cbn. set (sims := cosine_similarities E (embed query)).
  assert (length sims = length (c :: cs)) as Hsims.
  { unfold sims. by rewrite length_cosine_similarities. }
  set (chs := c :: cs) in *.
  assert (∀ idxs, Forall (λ idx, (idx < length chs)%nat) idxs →
            ∃ rs, mapM (build_result chs sims) idxs = Some rs) as Hbuild.
  { intros idxs His. apply mapM_is_Some. eapply Forall_impl; [exact His|].
    intros idx Hidx. cbn in Hidx |- *.
    destruct (lookup_lt_is_Some_2 chs idx Hidx) as [c' Hc'].
    destruct (lookup_lt_is_Some_2 sims idx) as [s' Hs']; [by rewrite Hsims|].
    unfold build_result. rewrite Hc', Hs'. cbn. eauto. }
  destruct allowed_documents as [allowed|].
  - set (pool := filtered_indices_of allowed chs).
    assert (Forall (λ idx, (idx < length chs)%nat) pool) as Hpool.
    { apply Forall_forall. intros idx Hidx.
      by apply (candidate_pool_bound (Some allowed)). }
    match goal with |- context [index_or_raise ?o _] =>
      destruct o as [fsims|] eqn:Hfsims end; cycle 1.
    { exfalso. eapply is_Some_None. rewrite <- Hfsims.
      apply mapM_lookup_is_Some. eapply Forall_impl; [exact Hpool|].
      intros idx Hidx. cbv beta in Hidx |- *. by rewrite Hsims. }
    unfold index_or_raise at 1. run_monad.
    pose proof (mapM_Some_1 _ _ _ Hfsims) as Hf2.
    pose proof (Forall2_length _ _ _ Hf2) as Hflen.
    destruct pool as [|p0 pool'] eqn:Hpooleq.
    { exists []. split; [done|]. unfold candidate_pool. fold pool. rewrite Hpooleq.
      apply ranked_from_empty_pool. }
    rewrite <- Hpooleq in *.
    match goal with |- context [index_or_raise ?o _] =>
      destruct o as [top_indices|] eqn:Htop end; cycle 1.
    { exfalso. eapply is_Some_None. rewrite <- Htop.
      apply mapM_lookup_is_Some.
      apply Forall_forall. intros o Ho%elem_of_slice_to. rewrite elem_of_reverse in Ho.
      apply elem_of_argsort in Ho. lia. }
    unfold index_or_raise at 1. run_monad.
    pose proof (mapM_Some_1 _ _ _ Htop) as Ht2.
    destruct (Hbuild top_indices) as [rs Hrs].
    { apply Forall_forall. intros idx Hidx.
      apply list_elem_of_lookup in Hidx as [i Hi].
      destruct (Forall2_lookup_r _ _ _ _ _ Ht2 Hi) as (o & _ & Ho).
      rewrite Forall_forall in Hpool. apply Hpool.
      eapply list_elem_of_lookup_2, Ho. }
    rewrite Hrs. unfold index_or_raise. run_monad. exists rs. split; [done|].
    exists fsims, top_indices. split_and!; [done|done|by apply mapM_Some_1].
  - destruct (Hbuild (slice_to top_k (reverse (argsort sims)))) as [rs Hrs].
    { apply Forall_forall. intros o Ho%elem_of_slice_to. rewrite elem_of_reverse in Ho.
      apply elem_of_argsort in Ho. lia. }
    rewrite Hrs. unfold index_or_raise. run_monad. exists rs. split; [done|].
    exists sims, (slice_to top_k (reverse (argsort sims))). split_and!.
    + unfold candidate_pool. rewrite <- Hsims. apply Forall2_lookup_seq.
    + apply Forall2_same_length_lookup. split; [done|].
      intros i o o' Ho Ho'. assert (o' = o) as -> by congruence.
      apply lookup_seq. split; [done|].
      apply list_elem_of_lookup_2, elem_of_slice_to in Ho.
      rewrite elem_of_reverse in Ho. apply elem_of_argsort in Ho. lia.
    + by apply mapM_Some_1.
Qed.
End SearchFacts.

(** ** What a ranked and cut pool looks like *)

Lemma lookup_values_unique {A} (l : list A) (idxs : list nat) (v1 v2 : list A) :
  Forall2 (λ idx s, l !! idx = Some s) idxs v1 →
  Forall2 (λ idx s, l !! idx = Some s) idxs v2 → v1 = v2.
Proof.
  intros H1. revert v2. induction H1 as [|idx s idxs v1 Hs _ IH]; intros v2 H2.
  - by apply Forall2_nil_inv_l in H2.
  - apply Forall2_cons_inv_l in H2 as (s' & v2' & Hs' & H2 & ->).
    f_equal; [congruence | by apply IH].
Qed.

Section RankedFrom.
Context (chs : list Chunk) (sims : list float32) (pool : list nat) (k : Z)
        (rs : list SearchResult).
Hypothesis Hranked : ranked_from chs sims pool k rs.

(** The result at position [i]: its place [o] in the pool, its chunk index
    and the similarity it was ranked by. *)
Lemma ranked_from_lookup i r :
  rs !! i = Some r →
  ∃ fsims o v c,
    Forall2 (λ idx s, sims !! idx = Some s) pool fsims ∧
    slice_to k (reverse (argsort fsims)) !! i = Some o ∧
    pool !! o = Some (r_chunk_index r) ∧
    fsims !! o = Some v ∧ sims !! r_chunk_index r = Some v ∧
    chs !! r_chunk_index r = Some c ∧
    r = {| r_text := text c; r_page := page c; r_chunk_id := chunk_id c;
           r_document := document c; r_similarity := to_float64 v;
           r_chunk_index := r_chunk_index r |}.
Proof.
  destruct Hranked as (fsims & top & Hf & Ho & Hr). intros Hi.
  destruct (Forall2_lookup_r _ _ _ _ _ Hr Hi) as (idx & Hidx & Hb).
  destruct (Forall2_lookup_r _ _ _ _ _ Ho Hidx) as (o & Horder & Hpo).
  destruct (Forall2_lookup_l _ _ _ _ _ Hf Hpo) as (v & Hv & Hs).
  apply build_result_Some in Hb as (c & s & Hc & Hs' & ->). cbn.
  assert (s = v) as -> by congruence.
  exists fsims, o, v, c. done.
Qed.




End RankedFrom.


(** ** Zero vectors *)











(** ** The demo index is well-formed *)

Lemma demo_embed_dim s : length (embed s) = 2%nat.
Proof. unfold embed, demo_embedder, demo_embed. by repeat case_match. Qed.

Lemma demo_index_wf : index_wf 2 demo_index.
Proof. split; [reflexivity | repeat constructor]. Qed.

(** ** The claims about [search] *)




(** C3. [search] on an empty store returns the empty list, and so does
    [search] with an explicit empty set of allowed documents on any store;
    neither raises. *)
Theorem search_empty `{Embedder} :
  (∀ E dm query top_k F,
     search query top_k F {| chunks := []; embeddings := E; document_map := dm |}
     = (Returns [], {| chunks := []; embeddings := E; document_map := dm |})) ∧
  (∀ chs dm query top_k F,
     search query top_k F {| chunks := chs; embeddings := None; document_map := dm |}
     = (Returns [], {| chunks := chs; embeddings := None; document_map := dm |})) ∧
  (∀ ix query top_k, search query top_k (Some ∅) ix = (Returns [], ix)).
Proof.
  split_and!.
  - reflexivity.
  - intros chs dm query top_k F. unfold search. run_monad. by destruct chs.
  - intros ix query top_k. unfold search. run_monad.
    destruct (chunks ix), (embeddings ix); reflexivity.
Qed.

(** C10. [search] reads the index and leaves it as it is: chunks,
    embeddings and document map are unchanged, and the same call made again
    gives the same result. *)
Theorem search_is_pure_read `{Embedder} (ix : DocumentIndex) (query : string)
    (top_k : Z) (allowed_documents : option (gset string)) :
  let after := (search query top_k allowed_documents ix).2 in
  chunks after = chunks ix ∧
  embeddings after = embeddings ix ∧
  document_map after = document_map ix ∧
  (search query top_k allowed_documents after).1
  = (search query top_k allowed_documents ix).1.
Proof. cbv zeta. rewrite search_frame. done. Qed.








(** ** The conversation store *)

Lemma get_conversation_history_add user other query answer context cm :
  get_conversation_history other (add_to_conversation user query answer context cm) =
  if decide (user = other)
  then get_conversation_history user cm ++ [mkEntry query answer context]
  else get_conversation_history other cm.
Proof.
  unfold get_conversation_history, add_to_conversation. cbn.
  rewrite lookup_insert. by destruct (decide (user = other)) as [->|].
Qed.

(** C9. After [clear_conversation] the context string of the user is
    empty, whatever [max_entries]; and clearing a user who has no history
    changes nothing (and cannot raise: the model of the method is total). *)
Theorem clear_then_context_is_empty (cm : ConversationManager) (user : string)
    (max_entries : Z) :
  build_context_string user max_entries (clear_conversation user cm) = "" ∧
  (conversations cm !! user = None → clear_conversation user cm = cm).
Proof.
  unfold clear_conversation, build_context_string, get_conversation_history.
  destruct (conversations cm !! user) as [history|] eqn:Hlookup.
  - cbn. rewrite lookup_insert_eq. done.
  - rewrite Hlookup. done.
Qed.

Lemma clear_then_context_is_empty_witness :
  build_context_string "alice@email.com" 3
    (clear_conversation "alice@email.com" ConversationManager_init) = "" ∧
  clear_conversation "alice@email.com" ConversationManager_init
  = ConversationManager_init.
Proof.
  destruct (clear_then_context_is_empty ConversationManager_init "alice@email.com" 3)
    as [Hctx Hnoop].
  split; [exact Hctx | apply Hnoop; reflexivity].
Defined.

Lemma slice_from_last_nonempty {A} (n : Z) (x : A) (l : list A) :
  0 < n → slice_from (- n) (x :: l) ≠ [].
Proof.
  intros Hn Hnil. apply (f_equal length) in Hnil. revert Hnil.
  unfold slice_from. destruct (Z.leb_spec 0 (- n)); [lia|].
  rewrite length_drop. cbn. lia.
Qed.

(** A user with history has a context string. *)
Lemma build_context_string_nonempty user cm :
  get_conversation_history user cm ≠ [] → build_context_string user 3 cm ≠ "".
Proof.
  unfold build_context_string. destruct (get_conversation_history user cm) as [|e l]; [done|].
  intros _. pose proof (slice_from_last_nonempty 3 e l ltac:(lia)) as Hne.
  destruct (slice_from _ (e :: l)) as [|e' l']; [done|].
  cbn. match goal with |- context [mbind ?f l'] => destruct (mbind f l') end;
    discriminate.
Qed.

(** ** The composer *)

(** The loop over the file names adds nothing: every file name is a value
    of the literal mapping already. *)
Lemma company_mapping_eq query_lower :
  company_mapping query_lower = company_mapping_literal.
Proof.
  unfold company_mapping, document_names. cbn [fold_left].
  repeat match goal with
  | |- context [negb (bool_decide ?P)] =>
      replace (negb (bool_decide P)) with false by (vm_compute; reflexivity);
      rewrite andb_false_r
  end.
  reflexivity.
Qed.


Section ComposerFacts.
Context {I : Type} `{Retriever I}.

Lemma call_search_manager query allowed_docs (st : ConversationalQA I) :
  conversation_manager (call_search query allowed_docs st).2 = conversation_manager st.
Proof. unfold call_search. by destruct (index_search _ _ _ _). Qed.

(** Retrieval touches the index only, never the conversations. *)
Lemma retrieve_with_fallback_manager user query use_context allowed_docs
    (st : ConversationalQA I) :
  conversation_manager (retrieve_with_fallback user query use_context allowed_docs st).2
  = conversation_manager st.
Proof.
  unfold retrieve_with_fallback. run_monad.
  destruct (if use_context then _ else _) as [enhanced used].
  pose proof (call_search_manager enhanced allowed_docs st) as H1.
  destruct (call_search enhanced allowed_docs st) as [[rs1|e1] st1]; cbn in *; [|done].
  destruct (bool_decide (rs1 = []) && used); cbn; [|done].
  pose proof (call_search_manager query allowed_docs st1) as H2.
  destruct (call_search query allowed_docs st1) as [[rs2|e2] st2]; cbn in *; congruence.
Qed.

(** A call that is not refused: retrieval, then the answer, then the turn. *)
Lemma answer_query_run user query use_context (st st1 : ConversationalQA I) rs used :
  unauthorized_mentions (get_allowed_documents_set user) (lower query) = [] →
  retrieve_with_fallback user query use_context (get_allowed_documents_set user) st
  = (Returns (rs, used), st1) →
  let allowed := get_allowed_documents_set user in
  let answer := (build_answer allowed rs).1 in
  let sources := (build_answer allowed rs).2 in
  answer_query user query use_context st =
  (Returns {| answer := answer; sources := sources; context_used := used |},
   {| document_index := document_index st1;
      conversation_manager :=
        add_to_conversation user query answer (join "; " (s_document <$> sources))
          (conversation_manager st) |}).
Proof.
  intros Hauth Hret. cbv zeta. unfold answer_query. rewrite Hauth. run_monad.
  pose proof (retrieve_with_fallback_manager user query use_context
                (get_allowed_documents_set user) st) as Hcm.
  rewrite Hret in Hcm |- *. cbn in Hcm.
  destruct (build_answer _ rs) as [a s]. unfold call_add_to_conversation. cbn.
  by rewrite Hcm.
Qed.

(** A refused call returns at once and leaves the whole state as it was. *)
Lemma answer_query_refusal user query use_context (st : ConversationalQA I) :
  unauthorized_mentions (get_allowed_documents_set user) (lower query) ≠ [] →
  answer_query user query use_context st =
  (Returns {| answer :=
                refusal_answer
                  (unauthorized_mentions (get_allowed_documents_set user) (lower query))
                  (get_allowed_documents_set user);
              sources := []; context_used := false |}, st).
Proof.
  intros Hne. unfold answer_query.
  destruct (unauthorized_mentions _ _) as [|m ms]; [done|]. reflexivity.
Qed.
End ComposerFacts.

(** ** Properties of [build_answer] *)

Lemma elem_of_high_similarity allowed_docs rs r :
  r ∈ high_similarity_results_of (filtered_results_of allowed_docs rs) ↔
  r ∈ rs ∧ r_document r ∈ allowed_docs ∧
  float_ge (r_similarity r) MIN_SIMILARITY_THRESHOLD = true.
Proof.
  unfold high_similarity_results_of, filtered_results_of.
  rewrite !list_elem_of_filter. tauto.
Qed.

Lemma build_answer_sources allowed_docs rs :
  (build_answer allowed_docs rs).2 =
  source_of <$> take 3 (high_similarity_results_of (filtered_results_of allowed_docs rs)).
Proof.
  unfold build_answer. destruct rs as [|r rs]; [done|].
  by destruct (high_similarity_results_of _).
Qed.

Lemma build_answer_no_results allowed_docs :
  build_answer allowed_docs [] = (no_results_answer, []).
Proof. reflexivity. Qed.


Lemma build_answer_composed allowed_docs rs :
  high_similarity_results_of (filtered_results_of allowed_docs rs) ≠ [] →
  let used := take 3 (high_similarity_results_of (filtered_results_of allowed_docs rs)) in
  let joined := join (newline +:+ newline) (r_text <$> used) in
  (build_answer allowed_docs rs).1 =
  if (1000 <? String.length joined)%nat then str_take 1000 joined +:+ "..." else joined.
Proof.
  intros Hne. unfold build_answer. destruct rs as [|r rs]; [done|].
  by destruct (high_similarity_results_of _).
Qed.

(** ** Retrieval with the index of the repository *)

(** With the index of the repository, on a well-formed index, retrieval
    returns and leaves the state as it was. *)
Lemma retrieve_with_fallback_returns `{Embedder} (d : nat)
    (st : ConversationalQA DocumentIndex) user query use_context allowed_docs :
  (∀ s, length (embed s) = d) → index_wf d (document_index st) →
  ∃ rs used,
    retrieve_with_fallback user query use_context allowed_docs st
    = (Returns (rs, used), st).
Proof.
  intros Hdim Hwf. unfold retrieve_with_fallback. run_monad.
  destruct (if use_context then _ else _) as [enhanced used].
  assert (∀ q, ∃ rs, call_search q allowed_docs st = (Returns rs, st)) as Hcall.
  { intros q. unfold call_search, index_search, DocumentIndex_retriever.
    destruct (search_spec d Hdim q 3 (Some allowed_docs) _ Hwf) as (rs & -> & _).
    exists rs. by destruct st. }
  destruct (Hcall enhanced) as [rs1 ->].
  destruct (bool_decide (rs1 = []) && used); cbn; [|eauto].
  destruct (Hcall query) as [rs2 ->]. eauto.
Qed.

(** ** The claims about [answer_query] *)



(** C5. A user with history asks with context: when the search on the
    context-fused query returns nothing, the search is run once more on the
    query as typed, [context_used] comes back false whatever the retry
    finds, and the answer is the one built from the results of the retry. *)
Theorem fallback_to_raw_query {I : Type} `{Retriever I}
    (st : ConversationalQA I) (user query : string) (ix1 ix2 : I)
    (rs : list SearchResult) :
  let allowed := get_allowed_documents_set user in
  let cm := conversation_manager st in
  let answer := (build_answer allowed rs).1 in
  let sources := (build_answer allowed rs).2 in
  unauthorized_mentions allowed (lower query) = [] →
  get_conversation_history user cm ≠ [] →
  index_search (enhance query (build_context_string user 3 cm)) 3 (Some allowed)
    (document_index st) = (Returns [], ix1) →
  index_search query 3 (Some allowed) ix1 = (Returns rs, ix2) →
  answer_query user query true st =
  (Returns {| answer := answer; sources := sources; context_used := false |},
   {| document_index := ix2;
      conversation_manager :=
        add_to_conversation user query answer (join "; " (s_document <$> sources)) cm |}).
Proof.
  intros allowed cm answer sources Hauth Hhist Hfused Hraw.
  apply (answer_query_run user query true st
           {| document_index := ix2; conversation_manager := cm |} rs false Hauth).
  unfold retrieve_with_fallback. run_monad.
  rewrite bool_decide_eq_true_2 by by apply build_context_string_nonempty.
  unfold call_search. fold allowed cm. rewrite Hfused. cbn. rewrite Hraw. done.
Qed.

Lemma fallback_to_raw_query_witness :
  let st := {| document_index := tt;
               conversation_manager :=
                 add_to_conversation "alice@email.com" "alpha?" "alpha one" ""
                   ConversationManager_init |} in
  ∃ st',
    @answer_query unit context_shy_retriever "alice@email.com" "and then?" true st =
    (Returns {| answer := "alpha one";
                sources := [ {| s_document := "company_a_earnings.pdf";
                                s_page := 1; s_similarity := "1.00" |} ];
                context_used := false |}, st').
Proof.
  eexists.
  apply (@fallback_to_raw_query unit context_shy_retriever _
           "alice@email.com" "and then?" tt tt [demo_result]).
  - reflexivity.
  - vm_compute. discriminate.
  - reflexivity.
  - reflexivity.
Defined.

(** With the index of the repository the retry can only come back empty
    as well: how many results [search] returns does not depend on the text
    of the query. *)
Lemma search_length_query_independent `{Embedder} (d : nat) (ix : DocumentIndex)
    (q1 q2 : string) (top_k : Z) (allowed_documents : option (gset string)) rs1 rs2 :
  (∀ s, length (embed s) = d) → index_wf d ix →
  (search q1 top_k allowed_documents ix).1 = Returns rs1 →
  (search q2 top_k allowed_documents ix).1 = Returns rs2 →
  length rs1 = length rs2.
Proof.
  intros Hdim Hwf H1 H2.
  destruct (search_spec d Hdim q1 top_k allowed_documents ix Hwf)
    as (rs1' & Hrun1 & (f1 & t1 & Hf1 & Ho1 & Hr1)).
  destruct (search_spec d Hdim q2 top_k allowed_documents ix Hwf)
    as (rs2' & Hrun2 & (f2 & t2 & Hf2 & Ho2 & Hr2)).
  rewrite Hrun1 in H1. rewrite Hrun2 in H2. cbn in H1, H2.
  injection H1 as ->. injection H2 as ->.
  rewrite <- (Forall2_length _ _ _ Hr1), <- (Forall2_length _ _ _ Ho1).
  rewrite <- (Forall2_length _ _ _ Hr2), <- (Forall2_length _ _ _ Ho2).
  rewrite !slice_to_take, !length_take, !length_reverse, !length_argsort.
  by rewrite <- (Forall2_length _ _ _ Hf1), <- (Forall2_length _ _ _ Hf2).
Qed.

(** Substrings *)







Lemma threshold_facts :
  format_2f MIN_SIMILARITY_THRESHOLD = "0.40" ∧
  float_ge MIN_SIMILARITY_THRESHOLD MIN_SIMILARITY_THRESHOLD = true ∧
  float_ge S754_nan MIN_SIMILARITY_THRESHOLD = false ∧
  MIN_SIMILARITY_THRESHOLD = SFdiv 53 1024 (binary_normalize 53 1024 2 0 false)
                                            (binary_normalize 53 1024 5 0 false).
Proof. split_and!; reflexivity. Qed.



(** C8. A refused call leaves the conversation history, and the rest of
    the state, as it was. A call that is not refused, once retrieval has
    returned, appends exactly one turn to the history of the calling user:
    the query as typed, the final answer, and the document labels of the
    sources joined with "; ". This is so in the branch without results and
    in the branch below the threshold as well, and the histories of other
    users stay as they were. *)
Theorem answer_query_records_one_turn {I : Type} `{Retriever I}
    (st : ConversationalQA I) (user query : string) (use_context : bool) :
  let allowed := get_allowed_documents_set user in
  match unauthorized_mentions allowed (lower query) with
  | _ :: _ => (answer_query user query use_context st).2 = st
  | [] =>
    ∀ rs used st1,
      retrieve_with_fallback user query use_context allowed st
      = (Returns (rs, used), st1) →
      ∃ resp st',
        answer_query user query use_context st = (Returns resp, st') ∧
        let turn := mkEntry query (answer resp)
                      (join "; " (s_document <$> sources resp)) in
        conversation_manager st' =
          add_to_conversation user query (answer resp)
            (join "; " (s_document <$> sources resp)) (conversation_manager st) ∧
        get_conversation_history user (conversation_manager st') =
          get_conversation_history user (conversation_manager st) ++ [turn] ∧
        ∀ other, other ≠ user →
          get_conversation_history other (conversation_manager st') =
          get_conversation_history other (conversation_manager st)
  end.
Proof.
  cbv zeta.
  destruct (unauthorized_mentions _ _) as [|m ms] eqn:Hauth.
  - intros rs used st1 Hret.
    eexists _, _. split; [exact (answer_query_run _ _ _ _ _ _ _ Hauth Hret)|].
    cbn [answer sources conversation_manager]. split_and!.
    + reflexivity.
    + rewrite get_conversation_history_add. by rewrite decide_True.
    + intros other Hother. rewrite get_conversation_history_add.
      by rewrite decide_False.
  - rewrite answer_query_refusal; [done|]. by rewrite Hauth.
Qed.

Lemma answer_query_records_one_turn_witness :
  (answer_query "alice@email.com" "What about company_b?" true demo_qa).2 = demo_qa ∧
  ∃ resp st',
    answer_query "bob@email.com" "alpha" true demo_qa = (Returns resp, st') ∧
    get_conversation_history "bob@email.com" (conversation_manager st') =
      [ mkEntry "alpha" (answer resp) (join "; " (s_document <$> sources resp)) ].
Proof.
  split.
  - exact (answer_query_records_one_turn demo_qa "alice@email.com"
             "What about company_b?" true).
  - destruct (answer_query_records_one_turn demo_qa "bob@email.com" "alpha" true
                [ {| r_text := "beta"; r_page := 1; r_chunk_id := 0;
                     r_document := "company_b_earnings.pdf";
                     r_similarity := S754_zero false; r_chunk_index := 1 |} ]
                false demo_qa)
      as (resp & st' & Hrun & _ & Hhist & _).
    + vm_compute. reflexivity.
    + exists resp, st'. split; [exact Hrun|]. rewrite Hhist. reflexivity.
Defined.

(** ** The invariant is what ingestion builds *)

Lemma DocumentIndex_init_wf d : index_wf d DocumentIndex_init.
Proof. reflexivity. Qed.

Lemma create_embeddings_wf `{Embedder} (d : nat) chs :
  (∀ s, length (embed s) = d) →
  length (create_embeddings chs) = length chs ∧
  Forall (λ row, length row = d) (create_embeddings chs).
Proof.
  intros Hdim. unfold create_embeddings, encode. split.
  - by rewrite !length_map.
  - apply Forall_forall. intros row (s & -> & _)%list_elem_of_fmap. apply Hdim.
Qed.

(** With an embedding model of one dimension, [add_document] returns and
    keeps the index well-formed. *)
Lemma add_document_wf `{Embedder} `{PdfReader} (d : nat) (pdf_path : string)
    (ix : DocumentIndex) :
  (∀ s, length (embed s) = d) → index_wf d ix →
  ∃ ix', add_document pdf_path ix = (Returns tt, ix') ∧ index_wf d ix'.
Proof.
  intros Hdim Hwf. unfold add_document. run_monad.
  destruct (extract_text_from_pdf pdf_path) as [|c cs] eqn:Hextract; [eauto|].
  destruct (create_embeddings_wf d (c :: cs) Hdim) as [Hlen Hrows].
  unfold index_wf in Hwf.
  destruct (embeddings ix) as [E|] eqn:HE; run_monad.
  - destruct Hwf as [HlenE HrowsE]. unfold vstack.
    assert (index_wf d {| chunks := chunks ix ++ c :: cs;
                          embeddings := Some (E ++ create_embeddings (c :: cs));
                          document_map :=
                            <[basename pdf_path :=
                                default [] (document_map ix !! basename pdf_path)
                                ++ seq (length (chunks ix)) (length (c :: cs))]>
                              (document_map ix) |}) as Hwf'.
    { split; cbn [chunks embeddings]; [|by apply Forall_app].
      rewrite !length_app, HlenE, Hlen. done. }
    destruct E as [|row E].
    { run_monad. eexists. split; [reflexivity | exact Hwf']. }
    destruct (create_embeddings (c :: cs)) as [|row' E'] eqn:HE'; [done|].
    apply Forall_cons in HrowsE as [-> _]. apply Forall_cons in Hrows as [-> _].
    rewrite Nat.eqb_refl. run_monad. eexists. split; [reflexivity | exact Hwf'].
  - eexists. split; [reflexivity|]. split; cbn [chunks embeddings]; [|done].
    rewrite Hwf, Hlen. done.
Qed.

(** ** The composer at work *)

(** A chunk above the threshold is the answer, with its source. The void
    chunk is ranked first by [search] and dropped at the threshold. *)
Example answer_query_demo :
  (answer_query "alice@email.com" "alpha" false demo_qa).1 =
  Returns {| answer := "alpha two" +:+ newline +:+ newline +:+ "alpha one";
             sources :=
               [ {| s_document := "company_a_earnings.pdf"; s_page := 1;
                    s_similarity := "1.00" |};
                 {| s_document := "company_a_earnings.pdf"; s_page := 1;
                    s_similarity := "1.00" |} ];
             context_used := false |}.
Proof. vm_compute. reflexivity. Qed.

(** The second question of a user is searched with the context appended. *)
Example answer_query_with_context :
  let st := (answer_query "alice@email.com" "alpha" true demo_qa).2 in
  ∃ first second,
    (answer_query "alice@email.com" "gamma" true demo_qa).1 = Returns first ∧
    (answer_query "alice@email.com" "gamma" true st).1 = Returns second ∧
    context_used first = false ∧ context_used second = true.
Proof.
  eexists _, _. split; [vm_compute; reflexivity|].
  split; [vm_compute; reflexivity|]. split; reflexivity.
Qed.


(** * Further properties of the code *)

(** ** Text extraction *)

Lemma chunks_of_pages_ids doc page_num cid pages i c :
  chunks_of_pages doc page_num cid pages !! i = Some c →
  chunk_id c = cid + Z.of_nat i.
Proof.
  revert page_num cid i. induction pages as [|[page_text|] pages IH];
    intros page_num cid i; cbn; [by rewrite lookup_nil | | by rewrite lookup_nil].
  intros [Hnew|[Hlen Hrest]]%lookup_app_Some.
  - apply list_lookup_imap_Some in Hnew as (para & _ & ->). done.
  - rewrite length_imap in Hlen, Hrest. apply IH in Hrest. lia.
Qed.

Lemma chunks_of_pages_shape doc page_num cid pages c :
  c ∈ chunks_of_pages doc page_num cid pages →
  document c = doc ∧ (50 < String.length (text c))%nat ∧
  page_num ≤ page c < page_num + Z.of_nat (length pages).
Proof.
  revert page_num cid. induction pages as [|[page_text|] pages IH];
    intros page_num cid; cbn [chunks_of_pages];
    [by intros ?%not_elem_of_nil | | by intros ?%not_elem_of_nil].
  intros [Hnew|Hrest]%elem_of_app.
  - apply elem_of_lookup_imap in Hnew as (i & para & -> & Hpara).
    apply list_elem_of_lookup_2 in Hpara. cbn. split_and!; [done| |lia|lia].
    destruct (bool_decide _); [|by apply not_elem_of_nil in Hpara].
    by apply list_elem_of_filter in Hpara as [? _].
  - apply IH in Hrest as (? & ? & ?). split_and!; [done..|lia|].
    cbn [length]. lia.
Qed.

(** X1. The chunk at position [i] of an extracted document has chunk id
    [i]: the ids count up from 0 across the pages and are unique within the
    document. *)
Theorem extracted_chunk_ids `{PdfPages} (pdf_path : string) (i : nat) (c : Chunk) :
  extract_text_from_pdf_pages pdf_path !! i = Some c → chunk_id c = Z.of_nat i.
Proof.
  unfold extract_text_from_pdf_pages. destruct (read_pages pdf_path) as [pages|].
  - intros Hc%chunks_of_pages_ids. lia.
  - by rewrite lookup_nil.
Qed.

Lemma extracted_chunk_ids_witness :
  ∃ c, @extract_text_from_pdf_pages demo_pages "documents/company_a_earnings.pdf"
         !! 2%nat = Some c ∧ chunk_id c = 2 ∧ page c = 3.
Proof.
  eexists. split; [reflexivity|]. split; [|reflexivity].
  by apply (@extracted_chunk_ids demo_pages "documents/company_a_earnings.pdf" 2).
Defined.





(** ** Adding a document *)

Section AddDocument.
Context `{Embedder} `{PdfReader}.

(** Whatever the outcome, the chunks of the file are appended. *)
Lemma add_document_chunks pdf_path ix :
  chunks (add_document pdf_path ix).2 = chunks ix ++ extract_text_from_pdf pdf_path.
Proof.
  unfold add_document, vstack. run_monad.
  destruct (extract_text_from_pdf pdf_path) as [|c cs]; [by rewrite app_nil_r|].
  destruct (embeddings ix) as [[|row E]|]; run_monad; try done.
  destruct (create_embeddings (c :: cs)) as [|row' E']; run_monad; [done|].
  by destruct (length row =? length row')%nat.
Qed.

Lemma add_document_Returns pdf_path ix ix' :
  add_document pdf_path ix = (Returns tt, ix') →
  let new := extract_text_from_pdf pdf_path in
  (new = [] ∧ ix' = ix) ∨
  (new ≠ [] ∧
   chunks ix' = chunks ix ++ new ∧
   embeddings ix' = Some (default [] (embeddings ix) ++ create_embeddings new) ∧
   document_map ix' =
     <[basename pdf_path :=
         default [] (document_map ix !! basename pdf_path)
         ++ seq (length (chunks ix)) (length new)]> (document_map ix)).
Proof.
  unfold add_document, vstack. run_monad.
  destruct (extract_text_from_pdf pdf_path) as [|c cs]; [intros [= <-]; by left|].
  intros Hrun. right. split; [done|].
  destruct (embeddings ix) as [[|row E]|]; run_monad;
    try (injection Hrun as <-; done).
  revert Hrun.
  destruct (create_embeddings (c :: cs)) as [|row' E']; run_monad;
    [by intros [= <-]|].
  destruct (length row =? length row')%nat; run_monad; [by intros [= <-]|done].
Qed.
End AddDocument.




Lemma add_document_consistent `{Embedder} `{PdfReader} (pdf_path : string)
    (ix ix' : DocumentIndex) :
  labels_by_basename →
  document_map_consistent ix →
  add_document pdf_path ix = (Returns tt, ix') →
  document_map_consistent ix'.
Proof.
  intros Hlabels Hcons Hrun.
  apply add_document_Returns in Hrun as [[_ ->]|(Hne & Hchunks & _ & Hmap)]; [done|].
  set (new := extract_text_from_pdf pdf_path) in *.
  assert (∀ label i, i ∈ default [] (document_map ix !! label) →
            (i < length (chunks ix))%nat) as Hold.
  { intros label i Hi. apply (Hcons label) in Hi as (c & Hc & _).
    by eapply lookup_lt_Some. }
  intros label. rewrite Hmap, Hchunks.
  destruct (decide (basename pdf_path = label)) as [<-|Hother].
  - rewrite lookup_insert_eq. cbn. destruct (Hcons (basename pdf_path)) as [Hnd Hiff].
    split.
    + apply NoDup_app. split_and!; [done| |apply NoDup_seq].
      intros i Hi Hseq. apply Hold in Hi. apply elem_of_seq in Hseq. lia.
    + intros i. rewrite elem_of_app, elem_of_seq, Hiff. split.
      * intros [(c & Hc & Hd)|Hrange].
        -- exists c. split; [|done]. by apply lookup_app_l_Some.
        -- destruct (lookup_lt_is_Some_2 new (i - length (chunks ix))) as [c Hc]; [lia|].
           exists c. split.
           ++ rewrite lookup_app_r by lia. done.
           ++ apply Hlabels. by eapply list_elem_of_lookup_2.
      * intros (c & Hc & Hd). apply lookup_app_Some in Hc as [Hc|[Hge Hc]].
        -- left. eauto.
        -- right. apply lookup_lt_Some in Hc. lia.
  - rewrite lookup_insert_ne by done. destruct (Hcons label) as [Hnd Hiff].
    split; [done|]. intros i. rewrite Hiff. split.
    + intros (c & Hc & Hd). exists c. split; [|done]. by apply lookup_app_l_Some.
    + intros (c & Hc & Hd). apply lookup_app_Some in Hc as [Hc|[Hge Hc]]; [eauto|].
      apply list_elem_of_lookup_2, Hlabels in Hc. congruence.
Qed.

(** X5. [add_document] keeps the document map in step with the chunks:
    when every extracted chunk carries the base name of its file, as those
    of [extract_text_from_pdf] do, and the map listed under each label
    exactly the positions of the chunks of that document, each once, it
    still does after a call that returns. *)
Theorem add_document_keeps_document_map `{Embedder} `{PdfReader} (pdf_path : string)
    (ix ix' : DocumentIndex) :
  labels_by_basename →
  document_map_consistent ix →
  add_document pdf_path ix = (Returns tt, ix') →
  document_map_consistent ix'.
Proof. apply add_document_consistent. Qed.

Lemma pages_label_by_basename `{PdfPages} : @labels_by_basename PdfPages_reader.
Proof.
  intros pdf_path c. unfold extract_text_from_pdf, PdfPages_reader,
    extract_text_from_pdf_pages.
  destruct (read_pages pdf_path) as [pages|]; [|by intros ?%not_elem_of_nil].
  by intros (? & _)%chunks_of_pages_shape.
Qed.

Lemma DocumentIndex_init_consistent : document_map_consistent DocumentIndex_init.
Proof.
  intros label. cbn. rewrite lookup_empty. cbn. split; [constructor|].
  intros i. split; [by intros ?%not_elem_of_nil|]. intros (c & Hc & _).
  by rewrite lookup_nil in Hc.
Qed.

Lemma add_document_keeps_document_map_witness :
  document_map_consistent
    (@add_document demo_embedder (@PdfPages_reader demo_pages)
       "documents/company_a_earnings.pdf" DocumentIndex_init).2.
Proof.
  apply (@add_document_keeps_document_map demo_embedder (@PdfPages_reader demo_pages)
           "documents/company_a_earnings.pdf" DocumentIndex_init).
  - apply pages_label_by_basename.
  - apply DocumentIndex_init_consistent.
  - vm_compute. reflexivity.
Defined.

(** X6. [add_document] is not atomic when it fails: if the rows of the new
    batch do not have the dimension of the stored rows, [np.vstack] raises
    [ValueError] after the chunks have been appended already, and the index
    is left with more chunks than embedding rows. *)
Theorem add_document_failure_keeps_chunks `{Embedder} `{PdfReader} (pdf_path : string)
    (ix : DocumentIndex) (row : vec) (E : list vec) (c : Chunk) (cs : list Chunk) :
  embeddings ix = Some (row :: E) →
  extract_text_from_pdf pdf_path = c :: cs →
  length (embed (text c)) ≠ length row →
  add_document pdf_path ix =
  (Raises ValueError,
   {| chunks := chunks ix ++ c :: cs; embeddings := Some (row :: E);
      document_map := document_map ix |}) ∧
  ∀ d, index_wf d ix →
    ¬ index_wf d {| chunks := chunks ix ++ c :: cs; embeddings := Some (row :: E);
                    document_map := document_map ix |}.
Proof.
  intros HE Hextract Hdim. split.
  - unfold add_document, vstack. run_monad. rewrite Hextract, HE. run_monad.
    unfold create_embeddings, encode. cbn [map].
    by destruct (Nat.eqb_spec (length row) (length (embed (text c)))); [congruence|].
  - intros d Hwf [Hlen _]. unfold index_wf in Hwf. rewrite HE in Hwf.
    destruct Hwf as [Hlen0 _]. cbn [chunks embeddings] in Hlen.
    rewrite length_app in Hlen. cbn in Hlen, Hlen0. lia.
Qed.

Lemma add_document_failure_keeps_chunks_witness :
  let reader := @PdfPages_reader demo_pages in
  let ix := (@add_document ragged_embed reader "documents/company_a_earnings.pdf"
               DocumentIndex_init).2 in
  (@add_document ragged_embed reader "documents/company_b_earnings.pdf" ix).1
  = Raises ValueError ∧
  length (chunks (@add_document ragged_embed reader
                    "documents/company_b_earnings.pdf" ix).2) = 4%nat.
Proof.
  intros reader ix.
  destruct (@add_document_failure_keeps_chunks ragged_embed reader
              "documents/company_b_earnings.pdf" ix
              [f32_one; f32_one] [[f32_one; f32_one]; [f32_one; f32_one]]
              (mkChunk ("beta " +:+ sixty) 1 0 "company_b_earnings.pdf") [])
    as [Hrun _].
  - vm_compute. reflexivity.
  - vm_compute. reflexivity.
  - vm_compute. lia.
  - rewrite Hrun. split; reflexivity.
Defined.

(** ** Loading a directory *)

Lemma for_each_invariant {S A} (P : S → Prop) (f : A → M S unit) (l : list A) (s : S) :
  (∀ x s, x ∈ l → P s → ∃ s', f x s = (Returns tt, s') ∧ P s') →
  P s → ∃ s', for_each f l s = (Returns tt, s') ∧ P s'.
Proof.
  revert s. induction l as [|x l IH]; intros s Hf Hs; cbn; [by exists s|].
  destruct (Hf x s) as (s1 & Hrun & Hs1); [left|done|]. run_monad. rewrite Hrun.
  apply IH; [|done]. intros y s2 Hy. apply Hf. by right.
Qed.

Lemma str_app_cons c a b : String c a +:+ b = String c (a +:+ b).
Proof. reflexivity. Qed.

Lemma str_app_nil_r a : a +:+ "" = a.
Proof. induction a as [|c a IH]; [done|]. by rewrite str_app_cons, IH. Qed.

Lemma str_app_assoc a b c : (a +:+ b) +:+ c = a +:+ (b +:+ c).
Proof. induction a as [|x a IH]; [done|]. by rewrite !str_app_cons, IH. Qed.

Lemma str_length_app a b : String.length (a +:+ b) = (String.length a + String.length b)%nat.
Proof. induction a as [|x a IH]; [done|]. rewrite str_app_cons. cbn. by rewrite IH. Qed.

Lemma prefix_char_cons a c s :
  String.prefix (String a "") (String c s) = true ↔ a = c.
Proof.
  cbn [String.prefix]. destruct (ascii_dec a c) as [->|Hne].
  - by destruct s.
  - split; [discriminate | done].
Qed.

Lemma basename_from_no_slash acc f :
  contains "/" f = false → basename_from acc f = acc +:+ f.
Proof.
  revert acc. induction f as [|c f IH]; intros acc Hf; cbn [basename_from].
  - by rewrite str_app_nil_r.
  - cbn [contains] in Hf. apply orb_false_iff in Hf as [Hc Hf].
    destruct (Ascii.eqb_spec c "/") as [->|Hne].
    + exfalso. by rewrite (proj2 (prefix_char_cons "/" "/" f) eq_refl) in Hc.
    + rewrite (IH _ Hf), str_app_assoc. done.
Qed.

Lemma basename_from_after_slash acc a f :
  basename_from acc (a +:+ String "/" f) = basename_from "" f.
Proof.
  revert acc. induction a as [|c a IH]; intros acc; [done|].
  rewrite str_app_cons. cbn. destruct (Ascii.eqb c "/"); apply IH.
Qed.

Lemma rev_app_prefix_slash s acc :
  String.prefix "/" (String.rev_app s acc) = true →
  (∃ a, s = a +:+ "/") ∨ (s = "" ∧ String.prefix "/" acc = true).
Proof.
  revert acc. induction s as [|c s IH]; intros acc Hp; [by right|]. left.
  cbn in Hp. apply IH in Hp as [[a ->]|[-> Hp]].
  - by exists (String c a).
  - exists "". cbn [String.rev_app] in Hp. by apply prefix_char_cons in Hp as <-.
Qed.

(** The base name of a file joined to its directory is the file name. *)
Lemma basename_path_join dir f :
  contains "/" f = false → basename (path_join dir f) = f.
Proof.
  intros Hf. unfold basename, path_join.
  assert (String.prefix "/" f = false) as ->.
  { destruct f as [|c f]; [done|]. cbn [contains] in Hf.
    by apply orb_false_iff in Hf as [? _]. }
  assert (∀ a, basename_from "" (a +:+ "/" +:+ f) = f) as Hslash.
  { intros a. change ("/" +:+ f) with (String "/" f).
    rewrite basename_from_after_slash. by apply basename_from_no_slash. }
  destruct (String.eqb_spec dir "") as [->|Hdir]; cbn [orb].
  - by apply basename_from_no_slash.
  - destruct (endswith "/" dir) eqn:Hend; [|apply Hslash].
    apply rev_app_prefix_slash in Hend as [[a ->]|[-> _]]; [|done].
    rewrite str_app_assoc. apply Hslash.
Qed.

Section LoadDocuments.
Context `{Embedder} `{PdfReader} `{FileSystem} (d : nat).
Hypothesis embed_dim : ∀ s, length (embed s) = d.

(** Whatever [add_document] keeps, the loop over the files keeps. *)
Lemma load_documents_keeps (P : DocumentIndex → Prop) documents_dir listed ix0 :
  listdir documents_dir = Some listed →
  (∀ f ix ix', f ∈ listed → endswith ".pdf" f = true → index_wf d ix → P ix →
     add_document (path_join documents_dir f) ix = (Returns tt, ix') → P ix') →
  index_wf d ix0 → P ix0 →
  ∃ ix, load_documents documents_dir ix0 = (Returns tt, ix) ∧ index_wf d ix ∧ P ix.
Proof.
  intros Hlist Hkeep Hwf0 HP0. unfold load_documents. rewrite Hlist.
  destruct (for_each_invariant (λ ix, index_wf d ix ∧ P ix)
              (λ pdf_file, add_document (path_join documents_dir pdf_file))
              (filter (λ f, endswith ".pdf" f = true) listed) ix0)
    as (ix & Hrun & Hwf & HP); [|exact (conj Hwf0 HP0)|exists ix; split_and!; assumption].
  intros f ix [Hpdf Hin]%list_elem_of_filter [Hwf HP].
  destruct (add_document_wf d (path_join documents_dir f) ix embed_dim Hwf)
    as (ix' & Hadd & Hwf').
  exists ix'. split_and!; [done..|]. exact (Hkeep f ix ix' Hin Hpdf Hwf HP Hadd).
Qed.

Lemma load_documents_missing documents_dir ix0 :
  listdir documents_dir = None → load_documents documents_dir ix0 = (Returns tt, ix0).
Proof. intros Hlist. unfold load_documents. by rewrite Hlist. Qed.

(** Loading keeps the index well-formed and what was in it in place. *)
Lemma load_documents_wf documents_dir ix0 :
  index_wf d ix0 →
  ∃ ix, load_documents documents_dir ix0 = (Returns tt, ix) ∧ index_wf d ix ∧
    ∃ new, chunks ix = chunks ix0 ++ new.
Proof.
  intros Hwf0. destruct (listdir documents_dir) as [listed|] eqn:Hlist.
  - apply (load_documents_keeps (λ ix, ∃ new, chunks ix = chunks ix0 ++ new) _ listed);
      [done| |done|by exists []; rewrite app_nil_r].
    intros f ix ix' _ _ _ [new Hnew] Hadd.
    pose proof (add_document_chunks (path_join documents_dir f) ix) as Hch.
    rewrite Hadd in Hch. cbn in Hch.
    eexists. by rewrite Hch, Hnew, <- app_assoc.
  - exists ix0. rewrite load_documents_missing by done.
    split_and!; [done..|]. exists []. by rewrite app_nil_r.
Qed.
End LoadDocuments.

(** X7. With an embedding model of one dimension, [load_documents]
    returns on every directory, existing or not, keeps a well-formed index
    well-formed and leaves the chunks that were in it where they were. *)
Theorem load_documents_keeps_index `{Embedder} `{PdfReader} `{FileSystem} (d : nat)
    (documents_dir : string) (ix0 : DocumentIndex) :
  (∀ s, length (embed s) = d) → index_wf d ix0 →
  ∃ ix, load_documents documents_dir ix0 = (Returns tt, ix) ∧ index_wf d ix ∧
    ∃ new, chunks ix = chunks ix0 ++ new.
Proof. intros Hdim. by apply load_documents_wf. Qed.

Lemma load_documents_keeps_index_witness :
  ∃ ix, @load_documents demo_embedder (@PdfPages_reader demo_pages) demo_files
          "documents" DocumentIndex_init = (Returns tt, ix) ∧
    index_wf 2 ix.
Proof.
  destruct (@load_documents_keeps_index demo_embedder (@PdfPages_reader demo_pages)
              demo_files 2 "documents" DocumentIndex_init demo_embed_dim
              (DocumentIndex_init_wf 2)) as (ix & Hrun & Hwf & _).
  by exists ix.
Defined.

(** X8. [load_documents] reads the files whose names end in ".pdf" and no
    others: started on an empty index, with chunks labelled by the base
    name of their file, every chunk of the loaded index is labelled with
    the name of a listed ".pdf" file, and the document map lists each
    chunk under its label, once. *)
Theorem load_documents_labels `{Embedder} `{PdfReader} `{FileSystem} (d : nat)
    (documents_dir : string) (listed : list string) :
  (∀ s, length (embed s) = d) →
  labels_by_basename →
  listdir documents_dir = Some listed →
  Forall (λ f, contains "/" f = false) listed →
  ∃ ix, load_documents documents_dir DocumentIndex_init = (Returns tt, ix) ∧
    document_map_consistent ix ∧
    ∀ c, c ∈ chunks ix → endswith ".pdf" (document c) = true ∧ document c ∈ listed.
Proof.
  intros Hdim Hlabels Hlist Hnames.
  destruct (load_documents_keeps d Hdim
              (λ ix, document_map_consistent ix ∧
                     ∀ c, c ∈ chunks ix →
                          endswith ".pdf" (document c) = true ∧ document c ∈ listed)
              documents_dir listed DocumentIndex_init Hlist)
    as (ix & Hrun & _ & Hcons & Hdocs).
  - intros f ix ix' Hin Hpdf _ [Hcons Hdocs] Hadd. split.
    + by eapply add_document_consistent.
    + pose proof (add_document_chunks (path_join documents_dir f) ix) as Hch.
      rewrite Hadd in Hch. cbn in Hch. rewrite Hch.
      intros c [Hold|Hnew]%elem_of_app; [by apply Hdocs|].
      rewrite (Hlabels _ _ Hnew).
      rewrite Forall_forall in Hnames. rewrite basename_path_join by by apply Hnames.
      done.
  - apply DocumentIndex_init_wf.
  - split; [apply DocumentIndex_init_consistent|]. by intros c ?%not_elem_of_nil.
  - by exists ix.
Qed.

Lemma load_documents_labels_witness :
  ∃ ix, @load_documents demo_embedder (@PdfPages_reader demo_pages) demo_files
          "documents" DocumentIndex_init = (Returns tt, ix) ∧
    document_map_consistent ix ∧
    ∀ c, c ∈ chunks ix →
      endswith ".pdf" (document c) = true ∧
      document c ∈ ["company_a_earnings.pdf"; "notes.txt"; "company_b_earnings.pdf"].
Proof.
  apply (@load_documents_labels demo_embedder (@PdfPages_reader demo_pages)
           demo_files 2 "documents").
  - exact demo_embed_dim.
  - apply pages_label_by_basename.
  - reflexivity.
  - repeat constructor.
Defined.

(** ** The composer over the index of the repository *)

Section ComposerOnIndex.
Context `{Embedder}.

Lemma call_search_frame query allowed_docs (st : ConversationalQA DocumentIndex) :
  (call_search query allowed_docs st).2 = st.
Proof.
  unfold call_search, index_search, DocumentIndex_retriever.
  pose proof (search_frame query 3 (Some allowed_docs) (document_index st)) as Hframe.
  destruct (search _ _ _ _) as [out ix]. cbn in *. subst ix. by destruct st.
Qed.

Lemma retrieve_with_fallback_frame user query use_context allowed_docs
    (st : ConversationalQA DocumentIndex) :
  (retrieve_with_fallback user query use_context allowed_docs st).2 = st.
Proof.
  unfold retrieve_with_fallback. run_monad.
  destruct (if use_context then _ else _) as [enhanced used].
  pose proof (call_search_frame enhanced allowed_docs st) as H1.
  destruct (call_search enhanced allowed_docs st) as [[rs1|e1] st1]; cbn in *; [|done].
  subst st1. destruct (bool_decide (rs1 = []) && used); cbn; [|done].
  pose proof (call_search_frame query allowed_docs st) as H2.
  by destruct (call_search query allowed_docs st) as [[rs2|e2] st2].
Qed.

(** [answer_query] never changes the index. *)
Lemma answer_query_index user query use_context (st : ConversationalQA DocumentIndex) :
  document_index (answer_query user query use_context st).2 = document_index st.
Proof.
  unfold answer_query. destruct (unauthorized_mentions _ _); [|done]. run_monad.
  pose proof (retrieve_with_fallback_frame user query use_context
                (get_allowed_documents_set user) st) as Hframe.
  destruct (retrieve_with_fallback _ _ _ _ st) as [[[rs used]|e] st1]; cbn in *;
    subst st1; [|done].
  by destruct (build_answer _ rs).
Qed.

Lemma answer_query_returns (d : nat) user query use_context
    (st : ConversationalQA DocumentIndex) :
  (∀ s, length (embed s) = d) → index_wf d (document_index st) →
  ∃ resp st', answer_query user query use_context st = (Returns resp, st') ∧
    document_index st' = document_index st.
Proof.
  intros Hdim Hwf.
  destruct (unauthorized_mentions (get_allowed_documents_set user) (lower query))
    as [|m ms] eqn:Hauth.
  - destruct (retrieve_with_fallback_returns d st user query use_context
                (get_allowed_documents_set user) Hdim Hwf) as (rs & used & Hret).
    eexists _, _. split; [exact (answer_query_run _ _ _ _ _ _ _ Hauth Hret)|]. done.
  - eexists _, _. split; [|reflexivity]. apply answer_query_refusal. by rewrite Hauth.
Qed.

Lemma clear_user_conversation_index user (st : ConversationalQA DocumentIndex) :
  document_index (clear_user_conversation user st).2 = document_index st.
Proof. reflexivity. Qed.

Lemma qa_step_index st st' :
  qa_step st st' → document_index st' = document_index st.
Proof.
  intros [user query use_context st0|user st0];
    [apply answer_query_index | apply clear_user_conversation_index].
Qed.
End ComposerOnIndex.

(** X9. On a well-formed index [answer_query] never raises: it returns a
    response, and the index is as it was. *)
Theorem answer_query_never_raises `{Embedder} (d : nat) (user query : string)
    (use_context : bool) (st : ConversationalQA DocumentIndex) :
  (∀ s, length (embed s) = d) → index_wf d (document_index st) →
  ∃ resp st', answer_query user query use_context st = (Returns resp, st') ∧
    document_index st' = document_index st.
Proof. apply answer_query_returns. Qed.

Lemma answer_query_never_raises_witness :
  ∃ resp st', answer_query "bob@email.com" "beta" true demo_qa = (Returns resp, st') ∧
    document_index st' = demo_index.
Proof.
  exact (answer_query_never_raises 2 "bob@email.com" "beta" true demo_qa
           demo_embed_dim demo_index_wf).
Defined.

(** X10. The running application keeps its index well-formed: in every
    state reached from [initialize_system] by calls of [answer_query] and
    [clear_user_conversation], the index is the one that was loaded, it is
    well-formed, and every further [answer_query] returns a response. *)
Theorem running_system_answers `{Embedder} `{PdfReader} `{FileSystem} (d : nat)
    (st : ConversationalQA DocumentIndex) :
  (∀ s, length (embed s) = d) → qa_reachable st →
  index_wf d (document_index st) ∧
  ∀ user query use_context,
    ∃ resp st', answer_query user query use_context st = (Returns resp, st').
Proof.
  intros Hdim (st0 & Hinit & Hsteps).
  assert (index_wf d (document_index st)) as Hwf.
  { assert (index_wf d (document_index st0)) as Hwf0.
    { unfold initialize_system in Hinit. destruct (listdir "documents"); [|done].
      destruct (load_documents_wf d Hdim "documents" DocumentIndex_init
                  (DocumentIndex_init_wf d)) as (ix & Hrun & Hwf & _).
      rewrite Hrun in Hinit. by injection Hinit as <-. }
    clear Hinit. induction Hsteps as [st|st1 st2 st3 Hstep _ IH]; [done|].
    apply IH. by rewrite (qa_step_index _ _ Hstep). }
  split; [done|]. intros user query use_context.
  destruct (answer_query_returns d user query use_context st Hdim Hwf)
    as (resp & st' & Hrun & _). eauto.
Qed.

Lemma running_system_answers_witness :
  ∃ st0,
    @initialize_system demo_embedder (@PdfPages_reader demo_pages) demo_files
    = Returns (Some st0) ∧
    index_wf 2 (document_index (answer_query "alice@email.com" "alpha" true st0).2).
Proof.
  eexists. split; [vm_compute; reflexivity|].
  apply (@running_system_answers demo_embedder (@PdfPages_reader demo_pages)
           demo_files 2 _ demo_embed_dim).
  eexists. split; [vm_compute; reflexivity|].
  eapply rtc_l; [|apply rtc_refl]. apply qa_step_answer.
Defined.

(** ** The composer over any index *)

Section ComposerAnyIndex.
Context {I : Type} `{Retriever I}.

(** What a returned response is made of. *)
Lemma answer_query_Returns_inv user query use_context (st st' : ConversationalQA I) resp :
  answer_query user query use_context st = (Returns resp, st') →
  let allowed := get_allowed_documents_set user in
  (unauthorized_mentions allowed (lower query) ≠ [] ∧ st' = st ∧
   sources resp = [] ∧ context_used resp = false) ∨
  (unauthorized_mentions allowed (lower query) = [] ∧
   ∃ rs used st1,
     retrieve_with_fallback user query use_context allowed st = (Returns (rs, used), st1) ∧
     answer resp = (build_answer allowed rs).1 ∧
     sources resp = (build_answer allowed rs).2 ∧
     context_used resp = used).
Proof.
  intros Hrun. cbv zeta.
  destruct (unauthorized_mentions (get_allowed_documents_set user) (lower query))
    as [|m ms] eqn:Hauth.
  - right. split; [done|].
    destruct (retrieve_with_fallback user query use_context
                (get_allowed_documents_set user) st) as [[[rs used]|e] st1] eqn:Hret.
    + rewrite (answer_query_run _ _ _ _ _ _ _ Hauth Hret) in Hrun.
      injection Hrun as <- <-. by exists rs, used, st1.
    + exfalso. revert Hrun. unfold answer_query. rewrite Hauth. run_monad.
      by rewrite Hret.
  - left. split; [done|]. rewrite answer_query_refusal in Hrun by by rewrite Hauth.
    by injection Hrun as <- <-.
Qed.

(** Without history there is no context to use. *)
Lemma retrieve_without_history user query allowed_docs (st : ConversationalQA I) :
  get_conversation_history user (conversation_manager st) = [] →
  retrieve_with_fallback user query true allowed_docs st =
  retrieve_with_fallback user query false allowed_docs st.
Proof.
  intros Hnone. unfold retrieve_with_fallback, build_context_string. run_monad.
  by rewrite Hnone.
Qed.

Lemma answer_query_without_history user query (st : ConversationalQA I) :
  get_conversation_history user (conversation_manager st) = [] →
  answer_query user query true st = answer_query user query false st.
Proof.
  intros Hnone. unfold answer_query.
  destruct (unauthorized_mentions _ _); [|done]. run_monad.
  by rewrite (retrieve_without_history _ _ _ _ Hnone).
Qed.

Lemma retrieve_without_context_flag user query allowed_docs (st st1 : ConversationalQA I)
    rs used :
  retrieve_with_fallback user query false allowed_docs st = (Returns (rs, used), st1) →
  used = false.
Proof.
  unfold retrieve_with_fallback. run_monad.
  destruct (call_search query allowed_docs st) as [[rs1|e1] st2]; cbn; [|done].
  rewrite andb_false_r. cbn. by intros [= _ <- _].
Qed.
End ComposerAnyIndex.

Lemma length_str_take n s : (String.length (str_take n s) ≤ n)%nat.
Proof.
  unfold str_take. revert s. induction n as [|n IH]; intros [|c s]; cbn; try lia.
  specialize (IH s). lia.
Qed.

Lemma get_conversation_history_clear user other cm :
  get_conversation_history other (clear_conversation user cm) =
  if decide (user = other) then [] else get_conversation_history other cm.
Proof.
  unfold get_conversation_history, clear_conversation.
  destruct (conversations cm !! user) as [h|] eqn:Hu; cbn.
  - rewrite lookup_insert. by destruct (decide (user = other)).
  - destruct (decide (user = other)) as [<-|]; [by rewrite Hu | done].
Qed.

(** X11. Whatever the index returns, a response of [answer_query] names at
    most three sources, and every one of them is a document the user may
    read. *)
Theorem answer_query_sources_allowed {I : Type} `{Retriever I}
    (st st' : ConversationalQA I) (user query : string) (use_context : bool)
    (resp : Response) :
  answer_query user query use_context st = (Returns resp, st') →
  (length (sources resp) ≤ 3)%nat ∧
  ∀ src, src ∈ sources resp → s_document src ∈ get_allowed_documents_set user.
Proof.
  intros [(_ & _ & -> & _)|(_ & rs & used & st1 & _ & _ & -> & _)]%answer_query_Returns_inv.
  - split; [cbn; lia|]. by intros src ?%elem_of_nil.
  - rewrite build_answer_sources. split.
    + rewrite length_fmap, length_take. lia.
    + intros src (r & -> & Hr%subseteq_take)%list_elem_of_fmap.
      by apply elem_of_high_similarity in Hr as (_ & Hdoc & _).
Qed.

Lemma answer_query_sources_allowed_witness :
  ∃ resp st',
    answer_query "bob@email.com" "beta" false demo_qa = (Returns resp, st') ∧
    (length (sources resp) ≤ 3)%nat ∧
    Forall (λ src, s_document src ∈ get_allowed_documents_set "bob@email.com")
           (sources resp).
Proof.
  eexists _, _. split; [vm_compute; reflexivity|].
  rewrite Forall_forall.
  refine (answer_query_sources_allowed demo_qa _ "bob@email.com" "beta" false _ _).
  vm_compute. reflexivity.
Defined.

(** X12. A response that names sources has an answer of at most 1003
    characters: the texts of the chunks joined, cut at 1000 characters and
    followed by three dots when longer. *)
Theorem answer_query_answer_bounded {I : Type} `{Retriever I}
    (st st' : ConversationalQA I) (user query : string) (use_context : bool)
    (resp : Response) :
  answer_query user query use_context st = (Returns resp, st') →
  sources resp ≠ [] →
  (String.length (answer resp) ≤ 1003)%nat.
Proof.
  intros [(_ & _ & -> & _)|(_ & rs & used & st1 & _ & -> & -> & _)]%answer_query_Returns_inv;
    [done|].
  rewrite build_answer_sources. intros Hne.
  rewrite build_answer_composed by (intros Hnil; by rewrite Hnil in Hne).
  cbv zeta. destruct (Nat.ltb_spec 1000 (String.length
    (join (newline +:+ newline)
       (r_text <$> take 3 (high_similarity_results_of
                             (filtered_results_of (get_allowed_documents_set user) rs))))));
    [|lia].
  rewrite str_length_app. pose proof (length_str_take 1000
    (join (newline +:+ newline)
       (r_text <$> take 3 (high_similarity_results_of
                             (filtered_results_of (get_allowed_documents_set user) rs))))).
  cbn [String.length]. lia.
Qed.

Lemma answer_query_answer_bounded_witness :
  (String.length "beta" ≤ 1003)%nat.
Proof.
  refine (answer_query_answer_bounded demo_qa _ "bob@email.com" "beta" false
            {| answer := "beta";
               sources := [ {| s_document := "company_b_earnings.pdf";
                               s_page := 1; s_similarity := "1.00" |} ];
               context_used := false |} _ _).
  - vm_compute. reflexivity.
  - discriminate.
Defined.

(** X13. For a user without history [use_context] makes no difference:
    the call with context is the call without, and a response that comes
    back has [context_used] false. *)
Theorem answer_query_no_history_no_context {I : Type} `{Retriever I}
    (st : ConversationalQA I) (user query : string) :
  get_conversation_history user (conversation_manager st) = [] →
  answer_query user query true st = answer_query user query false st ∧
  ∀ resp st', answer_query user query true st = (Returns resp, st') →
    context_used resp = false.
Proof.
  intros Hnone. split; [by apply answer_query_without_history|].
  intros resp st'. rewrite (answer_query_without_history _ _ _ Hnone).
  intros [(_ & _ & _ & ->)|(_ & rs & used & st1 & Hret & _ & _ & ->)]%answer_query_Returns_inv;
    [done|].
  by eapply retrieve_without_context_flag.
Qed.

Lemma answer_query_no_history_no_context_witness :
  answer_query "bob@email.com" "beta" true demo_qa =
  answer_query "bob@email.com" "beta" false demo_qa.
Proof.
  refine (proj1 (answer_query_no_history_no_context demo_qa "bob@email.com" "beta" _)).
  reflexivity.
Defined.

(** X14. After [clear_user_conversation] the next question of the user is
    answered without context, as if [use_context] were false; the index and
    the histories of the other users are as before the clearing. *)
Theorem clear_then_answer_without_context {I : Type} `{Retriever I}
    (st : ConversationalQA I) (user query : string) :
  let cleared := (clear_user_conversation user st).2 in
  answer_query user query true cleared = answer_query user query false cleared ∧
  document_index cleared = document_index st ∧
  ∀ other, other ≠ user →
    get_conversation_history other (conversation_manager cleared) =
    get_conversation_history other (conversation_manager st).
Proof.
  cbv zeta. split_and!.
  - apply answer_query_without_history. cbn.
    rewrite get_conversation_history_clear. by rewrite decide_True.
  - reflexivity.
  - intros other Hother. cbn. rewrite get_conversation_history_clear.
    by rewrite decide_False.
Qed.

Lemma clear_then_answer_without_context_witness :
  let cleared := (clear_user_conversation "bob@email.com" demo_qa).2 in
  answer_query "bob@email.com" "beta" true cleared =
    answer_query "bob@email.com" "beta" false cleared ∧
  get_conversation_history "alice@email.com" (conversation_manager cleared) =
    get_conversation_history "alice@email.com" (conversation_manager demo_qa).
Proof.
  destruct (clear_then_answer_without_context demo_qa "bob@email.com" "beta")
    as (Hsame & _ & Hothers).
  split; [exact Hsame | apply Hothers; discriminate].
Defined.

(** X15. The refusal list, read off the ten reference tokens alone: a
    name is in it exactly when it is the upper-case form of a token that
    occurs in the lower-cased query and whose document the user may not
    read. The loop over the file names (lines 127-131) never adds an entry
    to the mapping. *)
Theorem unauthorized_mentions_spec (allowed_docs : gset string) (query_lower m : string) :
  company_mapping query_lower = company_mapping_literal ∧
  (m ∈ unauthorized_mentions allowed_docs query_lower ↔
   ∃ token doc, (token, doc) ∈ company_mapping_literal ∧ m = upper token ∧
     contains token query_lower = true ∧ doc ∉ allowed_docs).
Proof.
  split; [apply company_mapping_eq|].
  unfold unauthorized_mentions, mentioned_companies. rewrite company_mapping_eq.
  rewrite list_elem_of_fmap. split.
  - intros ([token doc] & -> & [Hd [Hc Hin]%list_elem_of_filter]%list_elem_of_filter).
    by exists token, doc.
  - intros (token & doc & Hin & -> & Hc & Hd). exists (token, doc).
    split; [done|]. apply list_elem_of_filter. split; [done|].
    by apply list_elem_of_filter.
Qed.

(** ** A user without documents *)

Lemma search_empty_set `{Embedder} query top_k ix :
  search query top_k (Some ∅) ix = (Returns [], ix).
Proof.
  unfold search. run_monad. destruct (chunks ix), (embeddings ix); reflexivity.
Qed.

Lemma retrieve_with_fallback_empty_set `{Embedder} user query use_context
    (st : ConversationalQA DocumentIndex) :
  retrieve_with_fallback user query use_context ∅ st = (Returns ([], false), st).
Proof.
  assert (∀ q, call_search q ∅ st = (Returns [], st)) as Hcall.
  { intros q. unfold call_search, index_search, DocumentIndex_retriever.
    rewrite search_empty_set. by destruct st. }
  unfold retrieve_with_fallback. run_monad.
  destruct (if use_context then _ else _) as [enhanced used].
  rewrite Hcall. cbn. destruct used; cbn; [|done]. by rewrite Hcall.
Qed.

(** X16. A user who has no documents (an unknown address, for one) gets no
    source from any index, well-formed or not: the call returns, the answer
    is the refusal or the could-not-find message, there are no sources, no
    context is used, and the index is as it was. *)
Theorem no_documents_no_sources `{Embedder} (st : ConversationalQA DocumentIndex)
    (user query : string) (use_context : bool) :
  get_user_documents user = [] →
  ∃ resp st',
    answer_query user query use_context st = (Returns resp, st') ∧
    sources resp = [] ∧ context_used resp = false ∧
    document_index st' = document_index st ∧
    (answer resp = no_results_answer ∨
     answer resp = refusal_answer (unauthorized_mentions ∅ (lower query)) ∅).
Proof.
  intros Hnone.
  assert (get_allowed_documents_set user = ∅) as Hset.
  { unfold get_allowed_documents_set. by rewrite Hnone. }
  destruct (unauthorized_mentions (get_allowed_documents_set user) (lower query))
    as [|m ms] eqn:Hauth.
  - pose proof (retrieve_with_fallback_empty_set user query use_context st) as Hret.
    rewrite <- Hset in Hret.
    eexists _, _. split; [exact (answer_query_run _ _ _ _ _ _ _ Hauth Hret)|].
    cbn. split_and!; try done. by left.
  - eexists _, _. split; [apply answer_query_refusal; by rewrite Hauth|].
    cbn. split_and!; try done. right. by rewrite Hset.
Qed.

Lemma no_documents_no_sources_witness :
  ∃ resp st',
    answer_query "mallory@email.com" "alpha" true demo_qa = (Returns resp, st') ∧
    sources resp = [].
Proof.
  destruct (no_documents_no_sources demo_qa "mallory@email.com" "alpha" true)
    as (resp & st' & Hrun & Hsrc & _); [reflexivity|].
  by exists resp, st'.
Defined.

(** ** The conversation store, user by user *)

(** X17. [add_to_conversation] and [clear_conversation] touch the history
    of the given user only: after adding, that history is the old one with
    the new turn at its end, after clearing it is empty, and the history of
    every other user is as before in both cases. *)
Theorem conversation_store_per_user (cm : ConversationManager)
    (user other query answer context : string) :
  other ≠ user →
  get_conversation_history user (add_to_conversation user query answer context cm) =
    get_conversation_history user cm ++ [mkEntry query answer context] ∧
  get_conversation_history other (add_to_conversation user query answer context cm) =
    get_conversation_history other cm ∧
  get_conversation_history user (clear_conversation user cm) = [] ∧
  get_conversation_history other (clear_conversation user cm) =
    get_conversation_history other cm.
Proof.
  intros Hother.
  rewrite !get_conversation_history_add, !get_conversation_history_clear.
  destruct (decide (user = other)) as [->|_]; [done|].
  by destruct (decide (user = user)).
Qed.

Lemma conversation_store_per_user_witness :
  get_conversation_history "bob@email.com"
    (add_to_conversation "alice@email.com" "q" "a" "c" ConversationManager_init) = [].
Proof.
  destruct (conversation_store_per_user ConversationManager_init "alice@email.com"
              "bob@email.com" "q" "a" "c") as (_ & Hadd & _); [discriminate|].
  exact Hadd.
Defined.

(** ** Access control *)

(** X18. The three readers of the access table agree: [can_access_document]
    holds exactly for the members of [get_allowed_documents_set], which are
    exactly the entries of [get_user_documents]; for an address that is not
    in the table the set is empty and no document is accessible. *)
Theorem access_control_consistent (user document_name : string) :
  (can_access_document user document_name = true ↔
   document_name ∈ get_allowed_documents_set user) ∧
  (document_name ∈ get_allowed_documents_set user ↔
   document_name ∈ get_user_documents user) ∧
  (USER_DOCUMENT_ACCESS !! user = None →
   get_allowed_documents_set user = ∅ ∧ can_access_document user document_name = false).
Proof.
  unfold can_access_document, get_allowed_documents_set. split_and!.
  - rewrite bool_decide_eq_true. by rewrite elem_of_list_to_set.
  - by rewrite elem_of_list_to_set.
  - unfold get_user_documents. intros ->. cbn. split; [done|].
    apply bool_decide_eq_false. apply not_elem_of_nil.
Qed.

Lemma access_control_consistent_witness :
  get_allowed_documents_set "mallory@email.com" = ∅ ∧
  can_access_document "mallory@email.com" "company_a_earnings.pdf" = false.
Proof.
  destruct (access_control_consistent "mallory@email.com" "company_a_earnings.pdf")
    as (_ & _ & Hunknown).
  apply Hunknown. reflexivity.
Defined.

(** ** What of the history a response depends on *)

Lemma build_context_string_last user (n : Z) cm1 cm2 :
  0 < n →
  slice_from (- n) (get_conversation_history user cm1) =
  slice_from (- n) (get_conversation_history user cm2) →
  build_context_string user n cm1 = build_context_string user n cm2.
Proof.
  intros Hn Heq. unfold build_context_string.
  assert (slice_from (- n) (@nil Entry) = []) as Hnil.
  { unfold slice_from. destruct (0 <=? - n); apply drop_nil. }
  destruct (get_conversation_history user cm1) as [|e1 l1],
           (get_conversation_history user cm2) as [|e2 l2].
  - done.
  - rewrite Hnil in Heq. symmetry in Heq. by apply slice_from_last_nonempty in Heq.
  - rewrite Hnil in Heq. by apply slice_from_last_nonempty in Heq.
  - cbv beta iota zeta. by rewrite Heq.
Qed.

Section SameIndex.
Context {I : Type} `{Retriever I}.

Lemma call_search_same_index query allowed_docs (st1 st2 : ConversationalQA I) :
  document_index st1 = document_index st2 →
  (call_search query allowed_docs st1).1 = (call_search query allowed_docs st2).1 ∧
  document_index (call_search query allowed_docs st1).2 =
  document_index (call_search query allowed_docs st2).2.
Proof.
  intros Hix. unfold call_search. rewrite Hix. by destruct (index_search _ _ _ _).
Qed.

Lemma retrieve_same_index user query use_context allowed_docs
    (st1 st2 : ConversationalQA I) :
  document_index st1 = document_index st2 →
  build_context_string user 3 (conversation_manager st1) =
  build_context_string user 3 (conversation_manager st2) →
  (retrieve_with_fallback user query use_context allowed_docs st1).1 =
  (retrieve_with_fallback user query use_context allowed_docs st2).1 ∧
  document_index (retrieve_with_fallback user query use_context allowed_docs st1).2 =
  document_index (retrieve_with_fallback user query use_context allowed_docs st2).2.
Proof.
  intros Hix Hctx. unfold retrieve_with_fallback. run_monad. rewrite Hctx.
  destruct (if use_context then _ else _) as [enhanced used].
  destruct (call_search_same_index enhanced allowed_docs st1 st2 Hix) as [Ho Hs].
  destruct (call_search enhanced allowed_docs st1) as [o1 s1],
           (call_search enhanced allowed_docs st2) as [o2 s2]. cbn in Ho, Hs. subst o2.
  destruct o1 as [rs|e]; cbn; [|done].
  destruct (bool_decide (rs = []) && used); cbn; [|done].
  destruct (call_search_same_index query allowed_docs s1 s2 Hs) as [Ho' Hs'].
  destruct (call_search query allowed_docs s1) as [o1' s1'],
           (call_search query allowed_docs s2) as [o2' s2']. cbn in Ho', Hs'. subst o2'.
  by destruct o1'.
Qed.

Lemma answer_query_same_index user query use_context (st1 st2 : ConversationalQA I) :
  document_index st1 = document_index st2 →
  build_context_string user 3 (conversation_manager st1) =
  build_context_string user 3 (conversation_manager st2) →
  (answer_query user query use_context st1).1 =
  (answer_query user query use_context st2).1 ∧
  document_index (answer_query user query use_context st1).2 =
  document_index (answer_query user query use_context st2).2.
Proof.
  intros Hix Hctx. unfold answer_query.
  destruct (unauthorized_mentions _ _); [|done]. run_monad.
  destruct (retrieve_same_index user query use_context
              (get_allowed_documents_set user) st1 st2 Hix Hctx) as [Ho Hs].
  destruct (retrieve_with_fallback _ _ _ _ st1) as [o1 s1],
           (retrieve_with_fallback _ _ _ _ st2) as [o2 s2]. cbn in Ho, Hs. subst o2.
  destruct o1 as [[rs used]|e]; cbn; [|done].
  by destruct (build_answer _ rs).
Qed.
End SameIndex.

(** X19. A response depends on the conversations only through the last
    three turns of the calling user: two states with the same index in
    which these turns are the same give the same outcome (response or
    exception) and leave the same index, whatever else the histories
    hold. *)
Theorem answer_depends_on_last_three_turns {I : Type} `{Retriever I}
    (st1 st2 : ConversationalQA I) (user query : string) (use_context : bool) :
  document_index st1 = document_index st2 →
  slice_from (- 3) (get_conversation_history user (conversation_manager st1)) =
  slice_from (- 3) (get_conversation_history user (conversation_manager st2)) →
  (answer_query user query use_context st1).1 =
  (answer_query user query use_context st2).1 ∧
  document_index (answer_query user query use_context st1).2 =
  document_index (answer_query user query use_context st2).2.
Proof.
  intros Hix Hlast. apply answer_query_same_index; [done|].
  by apply build_context_string_last.
Qed.

Lemma answer_depends_on_last_three_turns_witness :
  let turn := mkEntry "beta" "beta" "company_b_earnings.pdf" in
  let old := mkEntry "profit?" "none" "" in
  let with_history h :=
    {| document_index := demo_index;
       conversation_manager :=
         {| conversations := {[ "bob@email.com" := h ]} |} |} in
  (answer_query "bob@email.com" "beta" true (with_history [old; turn; turn; turn])).1 =
  (answer_query "bob@email.com" "beta" true (with_history [turn; turn; turn])).1.
Proof.
  intros turn old with_history.
  refine (proj1 (answer_depends_on_last_three_turns
                   (with_history [old; turn; turn; turn])
                   (with_history [turn; turn; turn]) "bob@email.com" "beta" true _ _));
    reflexivity.
Defined.

(** ** More about [search] *)

Lemma ranked_from_unique chs sims pool k rs1 rs2 :
  ranked_from chs sims pool k rs1 → ranked_from chs sims pool k rs2 → rs1 = rs2.
Proof.
  intros (f1 & t1 & Hf1 & Ho1 & Hr1) (f2 & t2 & Hf2 & Ho2 & Hr2).
  assert (f1 = f2) as -> by eauto using lookup_values_unique.
  assert (t1 = t2) as ->.
  { apply mapM_Some_2 in Ho1, Ho2. congruence. }
  apply mapM_Some_2 in Hr1, Hr2. congruence.
Qed.


Lemma ranked_from_NoDup chs sims pool k rs :
  StronglySorted Nat.lt pool → ranked_from chs sims pool k rs →
  NoDup (r_chunk_index <$> rs).
Proof.
  intros Hsorted Hranked. apply NoDup_alt. intros i j x Hi Hj.
  rewrite list_lookup_fmap in Hi, Hj.
  destruct (rs !! i) as [ri|] eqn:Hri; [|done].
  destruct (rs !! j) as [rj|] eqn:Hrj; [|done]. cbn in Hi, Hj.
  injection Hi as Hi. injection Hj as Hj.
  destruct (ranked_from_lookup _ _ _ _ _ Hranked i ri Hri)
    as (fsims & oi & vi & ci & Hf & Hoi & Hpi & _).
  destruct (ranked_from_lookup _ _ _ _ _ Hranked j rj Hrj)
    as (fsims' & oj & vj & cj & Hf' & Hoj & Hpj & _).
  assert (fsims' = fsims) as -> by eauto using lookup_values_unique.
  rewrite Hi in Hpi. rewrite Hj in Hpj.
  assert (oi = oj) as ->.
  { destruct (Nat.lt_total oi oj) as [Hlt|[Heq|Hlt]]; [|done|].
    - pose proof (StronglySorted_lookup_lt _ _ _ _ _ _ Hsorted Hpi Hpj Hlt). lia.
    - pose proof (StronglySorted_lookup_lt _ _ _ _ _ _ Hsorted Hpj Hpi Hlt). lia. }
  assert (NoDup (slice_to k (reverse (argsort fsims)))) as Hnd.
  { rewrite slice_to_take. eapply sublist_NoDup; [|apply sublist_take].
    rewrite reverse_Permutation. apply NoDup_argsort. }
  by eapply NoDup_alt.
Qed.

Lemma filter_all {A} (P : A → Prop) `{∀ x, Decision (P x)} (l : list A) :
  Forall P l → filter P l = l.
Proof.
  induction 1 as [|x l Hx _ IH]; [done|]. rewrite filter_cons_True by done.
  by rewrite IH.
Qed.


Lemma filtered_indices_all allowed chs :
  (∀ c, c ∈ chs → document c ∈ allowed) →
  filtered_indices_of allowed chs = seq 0 (length chs).
Proof.
  intros Hall. unfold filtered_indices_of. rewrite filter_all.
  - rewrite fmap_imap. rewrite (imap_ext _ (λ j _, id j)) by done.
    by rewrite imap_seq_0, list_fmap_id.
  - apply Forall_forall. intros [i c] (j & y & [= -> ->] & Hj)%elem_of_lookup_imap.
    cbn. apply Hall. by eapply list_elem_of_lookup_2.
Qed.


(** X20. No chunk is returned twice, and every result is a faithful copy
    of its chunk: text, page, chunk id and document label are those of the
    chunk at [chunk_index], and the similarity is the one computed for that
    chunk. *)
Theorem search_results_are_distinct_chunks `{Embedder} (d : nat) (ix : DocumentIndex)
    (query : string) (top_k : Z) (allowed_documents : option (gset string))
    (rs : list SearchResult) :
  (∀ s, length (embed s) = d) → index_wf d ix →
  (search query top_k allowed_documents ix).1 = Returns rs →
  NoDup (r_chunk_index <$> rs) ∧
  ∀ r, r ∈ rs →
    ∃ c s, chunks ix !! r_chunk_index r = Some c ∧
      similarities_of ix query !! r_chunk_index r = Some s ∧
      r = {| r_text := text c; r_page := page c; r_chunk_id := chunk_id c;
             r_document := document c; r_similarity := to_float64 s;
             r_chunk_index := r_chunk_index r |}.
Proof.
  intros Hdim Hwf Hrun.
  destruct (search_spec d Hdim query top_k allowed_documents ix Hwf)
    as (rs' & Hrun' & Hranked).
  rewrite Hrun' in Hrun. cbn in Hrun. injection Hrun as ->. split.
  - eapply ranked_from_NoDup; [apply candidate_pool_sorted | exact Hranked].
  - intros r [i Hi]%list_elem_of_lookup.
    destruct (ranked_from_lookup _ _ _ _ _ Hranked i r Hi)
      as (fsims & o & v & c & _ & _ & _ & _ & Hs & Hc & Hr).
    by exists c, v.
Qed.

Lemma search_results_are_distinct_chunks_witness :
  ∃ rs, (search "alpha" 3 None demo_index).1 = Returns rs ∧
    NoDup (r_chunk_index <$> rs).
Proof.
  eexists. split; [vm_compute; reflexivity|].
  refine (proj1 (search_results_are_distinct_chunks 2 demo_index "alpha" 3 None _
                   demo_embed_dim demo_index_wf _)).
  vm_compute. reflexivity.
Defined.

(** X21. A filter that lets every chunk of the index through gives what the
    search without a filter gives: the two branches of [search] (lines
    151-181 and 182-183) agree. *)
Theorem search_with_full_filter `{Embedder} (d : nat) (ix : DocumentIndex)
    (query : string) (top_k : Z) (allowed : gset string) :
  (∀ s, length (embed s) = d) → index_wf d ix →
  (∀ c, c ∈ chunks ix → document c ∈ allowed) →
  search query top_k (Some allowed) ix = search query top_k None ix.
Proof.
  intros Hdim Hwf Hall.
  destruct (search_spec d Hdim query top_k (Some allowed) ix Hwf) as (rs1 & -> & H1).
  destruct (search_spec d Hdim query top_k None ix Hwf) as (rs2 & -> & H2).
  unfold candidate_pool in H1, H2. rewrite (filtered_indices_all _ _ Hall) in H1.
  by rewrite (ranked_from_unique _ _ _ _ _ _ H1 H2).
Qed.

Lemma search_with_full_filter_witness :
  search "alpha" 2
    (Some {[ "company_a_earnings.pdf"; "company_b_earnings.pdf" ]}) demo_index
  = search "alpha" 2 None demo_index.
Proof.
  apply (search_with_full_filter 2 demo_index "alpha" 2 _ demo_embed_dim demo_index_wf).
  intros c Hc. unfold demo_index, demo_chunks in Hc. cbn [chunks] in Hc.
  repeat (apply elem_of_cons in Hc as [->|Hc]; [cbn; set_solver|]).
  by apply elem_of_nil in Hc.
Defined.

(** X22. How many results [search] returns does not depend on the text of
    the query: on one index, with one filter and one [top_k], any two
    queries get lists of one length. (So the retry of [answer_query] with
    the raw query, made when the query with context found nothing, finds
    nothing either.) *)
Theorem search_count_ignores_query `{Embedder} (d : nat) (ix : DocumentIndex)
    (q1 q2 : string) (top_k : Z) (allowed_documents : option (gset string))
    (rs1 rs2 : list SearchResult) :
  (∀ s, length (embed s) = d) → index_wf d ix →
  (search q1 top_k allowed_documents ix).1 = Returns rs1 →
  (search q2 top_k allowed_documents ix).1 = Returns rs2 →
  length rs1 = length rs2.
Proof. apply search_length_query_independent. Qed.

Lemma search_count_ignores_query_witness :
  ∃ rs1 rs2,
    (search "alpha" 1 None demo_index).1 = Returns rs1 ∧
    (search "beta" 1 None demo_index).1 = Returns rs2 ∧
    length rs1 = length rs2.
Proof.
  eexists _, _. split; [vm_compute; reflexivity|]. split; [vm_compute; reflexivity|].
  apply (search_count_ignores_query 2 demo_index "alpha" "beta" 1 None _ _
           demo_embed_dim demo_index_wf); vm_compute; reflexivity.
Defined.


